(** * Erica backend proxy: the speech-synthesis endpoint and the live relay

    A shallow embedding of the Node server of the repository.  The server
    exists in several near-identical variants; the one embedded in full is the
    most recent (src/unnamed/part_000), and the places where an older variant
    of src/server.js differs are embedded next to it under their own names.

    - [Js]    : the fragment of JavaScript values and errors the handlers use.
    - [Tts]   : [generateSystemTTS] with its [voiceMap], and the handler of
                [POST /api/generate-tts].
    - [Relay] : the per-connection closure of [wss.on('connection')]: the
                variables [ai] and [liveSessionPromise], the promise returned
                by [ai.live.connect], and the handlers of the socket and of the
                backend callbacks, as a step function over events. *)

From stdpp Require Import base strings list gmap.

(** ** JavaScript values *)

Module Js.

(** The values a parsed JSON body or message can hold, as far as the handlers
    look at them.  [JObj d] stands for any object, array or function; [d] only
    names it. *)
Inductive JsVal :=
| JUndefined
| JNull
| JBool (b : bool)
| JNum (n : Z)
| JStr (s : string)
| JObj (d : string).

#[global] Instance JsVal_eq_dec : EqDecision JsVal.
Proof. solve_decision. Defined.

(** ToBoolean: what [if (x)], [!x] and [x || y] test. *)
Definition truthy (v : JsVal) : bool :=
  match v with
  | JUndefined | JNull => false
  | JBool b => b
  | JNum n => negb (Z.eqb n 0)
  | JStr s => negb (String.eqb s "")
  | JObj _ => true
  end.

(** [a || b] *)
Definition js_or (a b : JsVal) : JsVal := if truthy a then a else b.

(** [a ?? b] *)
Definition nullish (a b : JsVal) : JsVal :=
  match a with
  | JUndefined | JNull => b
  | _ => a
  end.

(** A destructuring default, [{ x = d } = obj]: used only when the property
    is [undefined]. *)
Definition with_default (a d : JsVal) : JsVal :=
  match a with
  | JUndefined => d
  | _ => a
  end.

(** An [Error] object: its [name] and its [message]. *)
Record JsError := mkError { err_name : string; err_message : string }.

#[global] Instance JsError_eq_dec : EqDecision JsError.
Proof. solve_decision. Defined.

(** [new Error(msg)] *)
Definition Error (msg : string) : JsError := mkError "Error" msg.
Definition TypeError (msg : string) : JsError := mkError "TypeError" msg.

(** [String(err)], that is [Error.prototype.toString]. *)
Definition String_of_error (e : JsError) : string :=
  if String.eqb (err_message e) "" then err_name e
  else if String.eqb (err_name e) "" then err_message e
  else err_name e +:+ ": " +:+ err_message e.

(** The result of running a block that may throw. *)
Inductive Completion (A : Type) :=
| Normal (a : A)
| Throw (e : JsError).
Arguments Normal {A} a.
Arguments Throw {A} e.

(** White space removed by [String.prototype.trim], over ASCII text. *)
Definition is_space (c : Ascii.ascii) : bool :=
  let n := Ascii.nat_of_ascii c in
  (n =? 32)%nat || ((9 <=? n)%nat && (n <=? 13)%nat).

Fixpoint trim_start (s : string) : string :=
  match s with
  | String c s' => if is_space c then trim_start s' else s
  | EmptyString => EmptyString
  end.

Fixpoint trim_end (s : string) : string :=
  match s with
  | String c s' =>
      match trim_end s' with
      | EmptyString => if is_space c then EmptyString else String c EmptyString
      | t => String c t
      end
  | EmptyString => EmptyString
  end.

Definition trim (s : string) : string := trim_end (trim_start s).

(** [hay.includes(needle)] *)
Fixpoint includes (hay needle : string) : bool :=
  String.prefix needle hay ||
  match hay with
  | String _ hay' => includes hay' needle
  | EmptyString => false
  end.

(** The own property names of [Object.prototype]; every object literal
    inherits them. *)
Definition Object_prototype_keys : list string :=
  [ "constructor"; "__defineGetter__"; "__defineSetter__"; "hasOwnProperty";
    "__lookupGetter__"; "__lookupSetter__"; "isPrototypeOf";
    "propertyIsEnumerable"; "toString"; "valueOf"; "__proto__";
    "toLocaleString" ].

(** [obj[key]] on an object literal whose own properties are the strings of
    [own]: an own property first, then the prototype chain, else
    [undefined]. *)
Definition get_property (own : gmap string string) (key : string) : JsVal :=
  match own !! key with
  | Some v => JStr v
  | None =>
      if bool_decide (key ∈ Object_prototype_keys)
      then JObj ("Object.prototype." +:+ key)
      else JUndefined
  end.

End Js.

(** ** The speech-synthesis endpoint *)

Module Tts.
Import Js.

(** [voiceMap] of [generateSystemTTS] (part_000:28-35). *)
Definition voiceMap : gmap string string :=
  list_to_map
    [ ("Aoede", "Samantha"); ("Charon", "Alex"); ("Fenrir", "Bruce");
      ("Kore", "Karen"); ("Puck", "Daniel"); ("Orion", "Alex") ].


(** [table[voice] || 'Karen'] *)
Definition resolve (table : gmap string string) (voice : string) : JsVal :=
  js_or (get_property table voice) (JStr "Karen").

(** [const systemVoice = voiceMap[voice] || 'Karen';] (part_000:37) *)
Definition systemVoice (voice : string) : JsVal := resolve voiceMap voice.

(** [inlineData] of the first part of the first candidate. *)
Record InlineData := mkInline { data : JsVal; mimeType : JsVal }.

(** What [ai.models.generateContent] does when it is called: it throws
    (rejects), or it returns a response whose optional chain
    [result.response?.candidates?.[0]?.content?.parts?.[0]?.inlineData]
    is [undefined] ([None]) or an object. *)
Inductive PrimaryOutcome :=
| PrimaryThrows (e : JsError)
| PrimaryReturns (inlineData : option InlineData).

(** The host and the providers as one request meets them. *)
Record Host := mkHost {
  platform : string;               (* process.platform *)
  primary : PrimaryOutcome;        (* the outcome of generateContent *)
  exec_error : option JsError;     (* the error exec hands to its callback *)
  tempFile : string;               (* path.join(cwd, `temp_${Date.now()}.aiff`) *)
  tempFile_exists : bool;          (* fs.existsSync(tempFile) after exec *)
  tempFile_base64 : string         (* readFileSync(tempFile).toString('base64') *)
}.

(** The shell command handed to [exec]. *)
Inductive Command :=
| Say (voice : JsVal) (out : string) (text : string)
| Festival (text : string).

Inductive Effect :=
| GenerateContent (model : string) (text : JsVal) (voiceName : JsVal)
| Exec (cmd : Command)
| ReadFile (file : string)
| Unlink (file : string).

#[global] Instance Command_eq_dec : EqDecision Command.
Proof. solve_decision. Defined.
#[global] Instance Effect_eq_dec : EqDecision Effect.
Proof. solve_decision. Defined.

Definition is_primary_attempt (e : Effect) : bool :=
  match e with GenerateContent _ _ _ => true | _ => false end.

Definition is_local_attempt (e : Effect) : bool :=
  match e with Exec _ => true | _ => false end.

(** The number of calls of each provider in a trace. *)
Definition primary_attempts (fx : list Effect) : nat :=
  length (filter (fun e => is_primary_attempt e = true) fx).
Definition local_attempts (fx : list Effect) : nat :=
  length (filter (fun e => is_local_attempt e = true) fx).

(** The HTTP response: [res.status(s).json({error, details})] or
    [res.json({audioBase64, audioMimeType})] with status 200. *)
Inductive Response :=
| RespError (status : nat) (error : string) (details : option string)
| RespAudio (audioBase64 : JsVal) (audioMimeType : option JsVal).

Definition status (r : Response) : nat :=
  match r with
  | RespError s _ _ => s
  | RespAudio _ _ => 200
  end.

(** [req.body] after destructuring: an absent property is [JUndefined]. *)
Record Body := mkBody { text : JsVal; voice : JsVal; apiKey : JsVal }.

(** [createAiClient] (part_000:18-23); the client is its key. *)
Definition createAiClient (apiKey : JsVal) : Completion JsVal :=
  if negb (truthy apiKey) then Throw (Error "Missing Gemini API key")
  else Normal apiKey.

(** [generateSystemTTS(text, voice)] (part_000:26-62): the promise settles
    with the audio ([Normal]) or is rejected ([Throw]). *)
Definition generateSystemTTS (h : Host) (text voice : string)
  : Completion string * list Effect :=
  let systemVoice := systemVoice voice in
  let darwin := String.eqb (platform h) "darwin" in
  let command :=
    if darwin then Say systemVoice (tempFile h) text else Festival text in
  match exec_error h with
  | Some error => (Throw error, [Exec command])
  | None =>
      if darwin && tempFile_exists h
      then (Normal (tempFile_base64 h),
            [Exec command; ReadFile (tempFile h); Unlink (tempFile h)])
      else (Throw (Error "TTS generation failed"), [Exec command])
  end.

(** The test that guards the local tier, [process.platform !== 'darwin']
    negated (part_000:148). *)
Definition fallback_available (h : Host) : bool :=
  String.eqb (platform h) "darwin".

(** [typeof voiceRaw === 'string' ? (voiceRaw.trim() || 'Puck') : 'Puck']
    after the default ['Puck'] (part_000:99-100). *)
Definition normalize_voice (voiceRaw : JsVal) : string :=
  match with_default voiceRaw (JStr "Puck") with
  | JStr s => if String.eqb (trim s) "" then "Puck" else trim s
  | _ => "Puck"
  end.

(** [text.substring(0, 50)] inside the request log line (part_000:102): it
    yields a string when [text] is one and throws otherwise. *)
Definition text_substring (text : JsVal) : Completion string :=
  match text with
  | JStr s => Normal (String.substring 0 50 s)
  | JUndefined =>
      Throw (TypeError "Cannot read properties of undefined (reading 'substring')")
  | JNull =>
      Throw (TypeError "Cannot read properties of null (reading 'substring')")
  | _ => Throw (TypeError "text.substring is not a function")
  end.

(** The inner [try] block (part_000:115-143): the primary provider. *)
Definition try_gemini (h : Host) (text : JsVal) (voice : string) (apiKey : JsVal)
  : Completion (JsVal * JsVal) * list Effect :=
  match createAiClient apiKey with
  | Throw e => (Throw e, [])
  | Normal _ =>
      let call := [GenerateContent "gemini-2.0-flash-exp" text (JStr voice)] in
      match primary h with
      | PrimaryThrows e => (Throw e, call)
      | PrimaryReturns audioData =>
          let audioBase64 :=
            nullish (from_option data JUndefined audioData) (JStr "") in
          let audioMimeType :=
            nullish (from_option mimeType JUndefined audioData) (JStr "") in
          if negb (truthy audioBase64)
          then (Throw (Error "No audio data from Gemini"), call)
          else (Normal (audioBase64, audioMimeType), call)
      end
  end.

(** The body of the outer [try] (part_000:98-157). *)
Definition generate_tts_body (h : Host) (b : Body)
  : Completion Response * list Effect :=
  let voice := normalize_voice (voice b) in
  match text_substring (text b) with
  | Throw e => (Throw e, [])
  | Normal _ =>
      if negb (truthy (text b))
      then (Normal (RespError 400 "Missing text in request body" None), [])
      else if negb (truthy (apiKey b))
      then (Normal (RespError 400 "Missing Gemini API key" None), [])
      else
        match try_gemini h (text b) voice (apiKey b) with
        | (Normal (audioBase64, audioMimeType), fx) =>
            (Normal (RespAudio audioBase64 (Some audioMimeType)), fx)
        | (Throw geminiError, fx) =>
            if negb (fallback_available h)
            then (Throw geminiError, fx)
            else
              match text b with
              | JStr t =>
                  match generateSystemTTS h t voice with
                  | (Normal audioBase64, fx') =>
                      (Normal (RespAudio (JStr audioBase64)
                                         (Some (JStr "audio/aiff"))),
                       fx ++ fx')
                  | (Throw e, fx') => (Throw e, fx ++ fx')
                  end
              | _ => (Throw geminiError, fx) (* not reached: text is a string here *)
              end
        end
  end.

(** [app.post('/api/generate-tts', ...)] of part_000:97-162: the response
    and the provider calls made on the way. *)
Definition generate_tts (h : Host) (b : Body) : Response * list Effect :=
  match generate_tts_body h b with
  | (Normal r, fx) => (r, fx)
  | (Throw error, fx) =>
      (RespError 500 "Failed to generate TTS" (Some (String_of_error error)), fx)
  end.

(** The same route in the variants without a fallback (server.js:53-85;
    there the voice arrives as [voiceName]): no credential guard of its own,
    [createAiClient] throws into the handler's [catch]. *)
Definition generate_tts_A (h : Host) (b : Body) : Response * list Effect :=
  let voiceName := with_default (voice b) (JStr "Puck") in
  if negb (truthy (text b))
  then (RespError 400 "Missing text in request body" None, [])
  else
    match createAiClient (apiKey b) with
    | Throw error =>
        (RespError 500 "Failed to generate TTS" (Some (String_of_error error)), [])
    | Normal _ =>
        let call := [GenerateContent "gemini-2.0-flash-exp" (text b) voiceName] in
        match primary h with
        | PrimaryThrows error =>
            (RespError 500 "Failed to generate TTS"
                       (Some (String_of_error error)), call)
        | PrimaryReturns audioData =>
            (RespAudio (nullish (from_option data JUndefined audioData) (JStr ""))
                       None, call)
        end
    end.

(** The failure the primary attempt ends in, if it fails: what
    [catch (geminiError)] binds. *)
Definition primary_failure (h : Host) : option JsError :=
  match primary h with
  | PrimaryThrows e => Some e
  | PrimaryReturns audioData =>
      if truthy (nullish (from_option data JUndefined audioData) (JStr ""))
      then None
      else Some (Error "No audio data from Gemini")
  end.

(** The failure the local attempt ends in on a host with the fallback. *)
Definition local_failure (h : Host) : option JsError :=
  match exec_error h with
  | Some e => Some e
  | None => if tempFile_exists h then None else Some (Error "TTS generation failed")
  end.

(** The failure response of the route: [status(500)] with
    [{error: 'Failed to generate TTS', details: String(error)}]. *)
Definition SynthesisFailed (error : JsError) : Response :=
  RespError 500 "Failed to generate TTS" (Some (String_of_error error)).

End Tts.

(** ** The live relay *)

Module Relay.
Import Js.

(** Envelopes sent to the client with [ws.send(JSON.stringify(...))]. *)
Inductive Outbound :=
| Connected                              (* {type: 'connected'} *)
| Disconnected                           (* {type: 'disconnected'} *)
| GeminiMessage (serverContent : JsVal)  (* {type: 'gemini-message', data} *)
| ErrorEnvelope (error : string).        (* {type: 'error', error} *)

(** A callback registered with [liveSessionPromise.then(...)]. *)
Inductive Reaction :=
| SendAudio (audioData mimeType : JsVal)  (* session.sendRealtimeInput(...) *)
| CloseSession.                           (* session.close() *)

(** The promise returned by one call of [ai.live.connect].  The session it
    resolves to is the backend handle of that call; both are named by the
    index of the call. *)
Inductive PromiseState :=
| Pending (reactions : list Reaction)
| Fulfilled
| Rejected (e : JsError).

(** Calls that leave the handlers. *)
Inductive Effect :=
| WsSend (o : Outbound)
| WsClose
| LiveConnect (p : nat) (model : string) (voiceName : string) (userName : JsVal)
| SendRealtimeInput (p : nat) (audioData mimeType : JsVal)
| SessionClose (p : nat).

#[global] Instance Outbound_eq_dec : EqDecision Outbound.
Proof. solve_decision. Defined.
#[global] Instance Reaction_eq_dec : EqDecision Reaction.
Proof. solve_decision. Defined.
#[global] Instance Effect_eq_dec : EqDecision Effect.
Proof. solve_decision. Defined.

(** The closure of one connection: the variables [ai] and
    [liveSessionPromise] (part_000:170-171), the promises made so far, and
    the calls made so far, oldest first. *)
Record Conn := mkConn {
  ai : option JsVal;
  liveSessionPromise : option nat;
  promises : list PromiseState;
  trace : list Effect
}.

(** [wss.on('connection', ...)]: both variables start as [null]. *)
Definition connection : Conn := mkConn None None [] [].

(** [message.config] when it is an object. *)
Record Config := mkConfig { voiceName : JsVal; userName : JsVal; apiKey : JsVal }.

(** [JSON.parse(data.toString())] when it yields an object: [config] is
    [None] when [message.config] is absent or is not an object, so that
    [message.config || {}] has no property of interest. *)
Record Message := mkMessage {
  type : JsVal;
  config : option Config;
  audioData : JsVal;
  mimeType : JsVal
}.

(** An inbound frame: one on which [JSON.parse] or the read of
    [message.type] throws, or a parsed message. *)
Inductive Frame :=
| Malformed (e : JsError)
| Parsed (message : Message).

(** What the SDK does on [new GoogleGenAI({ apiKey })] followed by
    [ai.live.connect(...)], inside the inner [try]. *)
Inductive Sdk :=
| SdkReturns
| ConstructorThrows (err : JsError)
| ConnectThrows (err : JsError).

Inductive Event :=
| ClientMessage (sdk : Sdk) (f : Frame)   (* ws.on('message') *)
| TransportClose                          (* ws.on('close') *)
| TransportError (err : JsError)          (* ws.on('error') *)
| BackendOpen (p : nat)                   (* callbacks.onopen of call p *)
| BackendMessage (p : nat) (serverContent : JsVal)  (* callbacks.onmessage *)
| BackendClose (p : nat)                  (* callbacks.onclose *)
| BackendError (p : nat) (err : JsError)  (* callbacks.onerror *)
| ConnectResolved (p : nat)               (* the promise of call p fulfils *)
| ConnectRejected (p : nat) (err : JsError).

(** The events that can follow the close of the transport: all but the
    client's messages. *)
Definition from_backend (ev : Event) : bool :=
  match ev with
  | ClientMessage _ _ => false
  | _ => true
  end.

Definition emit (e : Effect) (c : Conn) : Conn :=
  mkConn (ai c) (liveSessionPromise c) (promises c) (trace c ++ [e]).

Definition set_liveSessionPromise (v : option nat) (c : Conn) : Conn :=
  mkConn (ai c) v (promises c) (trace c).

Definition set_promise (p : nat) (st : PromiseState) (c : Conn) : Conn :=
  mkConn (ai c) (liveSessionPromise c) (<[p := st]> (promises c)) (trace c).

(** The body of a [then] callback, run with the session of call [p].  The
    SDK's session has both methods, so the [typeof] guards pass. *)
Definition react (p : nat) (r : Reaction) (c : Conn) : Conn :=
  match r with
  | SendAudio audioData mimeType => emit (SendRealtimeInput p audioData mimeType) c
  | CloseSession => emit (SessionClose p) c
  end.

Definition react_all (p : nat) (rs : list Reaction) (c : Conn) : Conn :=
  fold_left (fun c r => react p r c) rs c.

(** [promise.then(r)] on the promise of call [p]: queued while the promise is
    pending, scheduled as a microtask when it is fulfilled, never run when it
    is rejected.  The microtasks are returned; they run when the handler's
    synchronous code is over. *)
Definition then_ (p : nat) (r : Reaction) (c : Conn) : Conn * list (nat * Reaction) :=
  match promises c !! p with
  | Some (Pending rs) => (set_promise p (Pending (rs ++ [r])) c, [])
  | Some Fulfilled => (c, [(p, r)])
  | _ => (c, [])
  end.

Definition run_microtasks (ms : list (nat * Reaction)) (c : Conn) : Conn :=
  fold_left (fun c m => react m.1 m.2 c) ms c.

Definition is_type (m : Message) (t : string) : bool :=
  bool_decide (type m = JStr t).

(** [typeof voiceNameRaw === 'string' ? (voiceNameRaw.trim() || 'Puck') : 'Puck']
    after the default ['Puck'] (part_000:178-179). *)
Definition normalize_voiceName (voiceNameRaw : JsVal) : string :=
  match with_default voiceNameRaw (JStr "Puck") with
  | JStr s => if String.eqb (trim s) "" then "Puck" else trim s
  | _ => "Puck"
  end.

Section Handlers.

(** [process.env.GEMINI_LIVE_MODEL || '...'] (part_000:16). *)
Variable GEMINI_LIVE_MODEL : string.

(** The [connect] branch (part_000:177-264). *)
Definition on_connect (sdk : Sdk) (m : Message) (c : Conn) : Conn :=
  let voiceNameRaw := from_option voiceName JUndefined (config m) in
  let userName := with_default (from_option userName JUndefined (config m))
                               (JStr "Student") in
  let apiKey := from_option apiKey JUndefined (config m) in
  let voiceName := normalize_voiceName voiceNameRaw in
  if negb (truthy apiKey)
  then emit (WsSend (ErrorEnvelope "Missing API key")) c
  else
    match sdk with
    | ConstructorThrows err =>
        emit (WsSend (ErrorEnvelope
                ("Failed to connect to Gemini: " +:+ String_of_error err))) c
    | ConnectThrows err =>
        emit (WsSend (ErrorEnvelope
                ("Failed to connect to Gemini: " +:+ String_of_error err)))
             (mkConn (Some apiKey) (liveSessionPromise c) (promises c) (trace c))
    | SdkReturns =>
        let p := length (promises c) in
        mkConn (Some apiKey) (Some p) (promises c ++ [Pending []])
               (trace c ++ [LiveConnect p GEMINI_LIVE_MODEL voiceName userName])
    end.

(** The [audio-input] branch (part_000:266-280). *)
Definition on_audio_input (m : Message) (c : Conn) : Conn * list (nat * Reaction) :=
  match liveSessionPromise c with
  | Some p => then_ p (SendAudio (audioData m) (mimeType m)) c
  | None => (c, [])
  end.

(** The [disconnect] branch (part_000:281-291). *)
Definition on_disconnect (c : Conn) : Conn * list (nat * Reaction) :=
  let '(c1, ms) :=
    match liveSessionPromise c with
    | Some p =>
        let '(c', ms) := then_ p CloseSession c in
        (set_liveSessionPromise None c', ms)
    | None => (c, [])
    end in
  (emit WsClose c1, ms).

(** [ws.on('message', async (data) => ...)] (part_000:173-296): the
    synchronous body, then the microtasks it scheduled. *)
Definition on_message (sdk : Sdk) (f : Frame) (c : Conn) : Conn :=
  match f with
  | Malformed error => emit (WsSend (ErrorEnvelope (String_of_error error))) c
  | Parsed message =>
      if is_type message "connect" then on_connect sdk message c
      else if is_type message "audio-input" then
        let '(c', ms) := on_audio_input message c in run_microtasks ms c'
      else if is_type message "disconnect" then
        let '(c', ms) := on_disconnect c in run_microtasks ms c'
      else c
  end.

(** [ws.on('close', ...)] (part_000:298-300) and [ws.on('error', ...)]
    (part_000:302-304): a line on the console. *)
Definition on_close (c : Conn) : Conn := c.
Definition on_error (err : JsError) (c : Conn) : Conn := c.

(** The callbacks handed to [ai.live.connect] (part_000:220-243). *)
Definition onopen (c : Conn) : Conn := emit (WsSend Connected) c.
Definition onmessage (serverContent : JsVal) (c : Conn) : Conn :=
  emit (WsSend (GeminiMessage serverContent)) c.
Definition onclose (c : Conn) : Conn := emit (WsSend Disconnected) c.
Definition onerror (err : JsError) (c : Conn) : Conn :=
  emit (WsSend (ErrorEnvelope (String_of_error err))) c.

(** The promise of call [p] settles: fulfilled, its queued callbacks run in
    the order they were registered; rejected, they never run. *)
Definition resolve_promise (p : nat) (c : Conn) : Conn :=
  match promises c !! p with
  | Some (Pending rs) => react_all p rs (set_promise p Fulfilled c)
  | _ => c
  end.

Definition reject_promise (p : nat) (err : JsError) (c : Conn) : Conn :=
  match promises c !! p with
  | Some (Pending _) => set_promise p (Rejected err) c
  | _ => c
  end.

Definition step (c : Conn) (ev : Event) : Conn :=
  match ev with
  | ClientMessage sdk f => on_message sdk f c
  | TransportClose => on_close c
  | TransportError err => on_error err c
  | BackendOpen _ => onopen c
  | BackendMessage _ serverContent => onmessage serverContent c
  | BackendClose _ => onclose c
  | BackendError _ err => onerror err c
  | ConnectResolved p => resolve_promise p c
  | ConnectRejected p err => reject_promise p err c
  end.

Definition run (evs : list Event) (c : Conn) : Conn := fold_left step evs c.

End Handlers.

(** How many times [session.close()] has been called on the handle of call
    [p], and how many such calls are queued on its pending promise. *)
Definition closes (p : nat) (c : Conn) : nat :=
  length (filter (fun e => e = SessionClose p) (trace c)).

Definition queued_closes (p : nat) (c : Conn) : nat :=
  match promises c !! p with
  | Some (Pending rs) => length (filter (fun r => r = CloseSession) rs)
  | _ => 0
  end.

(** The audio frames handed to any backend handle so far. *)
Definition forwarded (c : Conn) : list (nat * JsVal * JsVal) :=
  omap (fun e => match e with
                 | SendRealtimeInput p a m => Some (p, a, m)
                 | _ => None
                 end) (trace c).

(** The calls of [ai.live.connect] so far. *)
Definition connect_attempts (c : Conn) : list nat :=
  omap (fun e => match e with
                 | LiveConnect p _ _ _ => Some p
                 | _ => None
                 end) (trace c).

(** The envelopes sent to the client so far. *)
Definition sent (c : Conn) : list Outbound :=
  omap (fun e => match e with WsSend o => Some o | _ => None end) (trace c).

Definition is_error (o : Outbound) : bool :=
  match o with ErrorEnvelope _ => true | _ => false end.

(** The handle of call [p] is live: the call was made, its connection was not
    refused, and [session.close()] has not been called on it. *)
Definition live (p : nat) (c : Conn) : bool :=
  bool_decide (p ∈ connect_attempts c) &&
  match promises c !! p with
  | Some Fulfilled | Some (Pending _) => true
  | _ => false
  end &&
  (closes p c =? 0).

(** The handle the closure holds, when its connection has not been refused. *)
Definition held_handle (c : Conn) : option nat :=
  match liveSessionPromise c with
  | Some p =>
      match promises c !! p with
      | Some Fulfilled | Some (Pending _) => Some p
      | _ => None
      end
  | None => None
  end.

(** The audio frames among queued callbacks, as [react] forwards them. *)
Definition queued_audio (p : nat) (rs : list Reaction) : list (nat * JsVal * JsVal) :=
  omap (fun r => match r with
                 | SendAudio a m => Some (p, a, m)
                 | CloseSession => None
                 end) rs.

(** The default of [GEMINI_LIVE_MODEL] (part_000:16). *)
Definition default_live_model : string :=
  "gemini-2.5-flash-native-audio-preview-09-2025".

(** The lifecycle states of the specification, read off the closure, which
    has no state variable of its own: [idle] holds no handle; a held handle
    is [connecting] while its connection is still pending. *)
Definition idle (c : Conn) : bool :=
  match liveSessionPromise c with
  | None => true
  | Some _ => false
  end.

Definition connecting (c : Conn) : bool :=
  match liveSessionPromise c with
  | Some p =>
      match promises c !! p with
      | Some (Pending _) => true
      | _ => false
      end
  | None => false
  end.

End Relay.

(** * Properties of the speech-synthesis endpoint *)

Module TtsSpec.
Import Js Tts.

Lemma truthy_JStr (t : string) : t ≠ "" → truthy (JStr t) = true.
Proof.
  intros Hne. simpl. destruct (String.eqb_spec t ""); [contradiction | reflexivity].
Qed.

(** The inner [try] fails exactly with [primary_failure], after one call. *)
Lemma try_gemini_failure (h : Host) (txt : JsVal) (v : string) (k : JsVal) (e : JsError) :
  truthy k = true →
  primary_failure h = Some e →
  try_gemini h txt v k =
    (Throw e, [GenerateContent "gemini-2.0-flash-exp" txt (JStr v)]).
Proof.
  intros Hk Hp. unfold try_gemini, createAiClient, primary_failure in *.
  rewrite Hk. simpl.
  destruct (primary h) as [e' | audioData].
  - congruence.
  - destruct (truthy (nullish (from_option data JUndefined audioData) (JStr "")));
      simpl; congruence.
Qed.

(** The local tier on a host with the fallback: one [exec], and the
    rejection is [local_failure]. *)
Lemma generateSystemTTS_failure (h : Host) (t v : string) (e : JsError) :
  fallback_available h = true →
  local_failure h = Some e →
  ∃ cmd, generateSystemTTS h t v = (Throw e, [Exec cmd]).
Proof.
  unfold fallback_available, local_failure, generateSystemTTS.
  intros -> Hl. destruct (exec_error h) as [e'|].
  - eexists. repeat f_equal. congruence.
  - destruct (tempFile_exists h); simpl; [discriminate |].
    eexists. repeat f_equal. congruence.
Qed.

Lemma generateSystemTTS_one_exec (h : Host) (t v : string) :
  local_attempts (generateSystemTTS h t v).2 = 1.
Proof.
  unfold generateSystemTTS.
  destruct (exec_error h); [reflexivity |].
  destruct (String.eqb (platform h) "darwin" && tempFile_exists h); reflexivity.
Qed.

Lemma generateSystemTTS_no_primary (h : Host) (t v : string) :
  primary_attempts (generateSystemTTS h t v).2 = 0.
Proof.
  unfold generateSystemTTS.
  destruct (exec_error h); [reflexivity |].
  destruct (String.eqb (platform h) "darwin" && tempFile_exists h); reflexivity.
Qed.

Lemma primary_attempts_app (fx fx' : list Effect) :
  primary_attempts (fx ++ fx') = primary_attempts fx + primary_attempts fx'.
Proof. unfold primary_attempts. by rewrite filter_app, length_app. Qed.

Lemma local_attempts_app (fx fx' : list Effect) :
  local_attempts (fx ++ fx') = local_attempts fx + local_attempts fx'.
Proof. unfold local_attempts. by rewrite filter_app, length_app. Qed.

(** What the handler does with a valid body once the primary attempt has
    failed with [e]. *)
Lemma generate_tts_after_primary_failure (h : Host) (b : Body) (t : string) (e : JsError) :
  text b = JStr t → t ≠ "" → truthy (apiKey b) = true →
  primary_failure h = Some e →
  generate_tts_body h b =
    let call := [GenerateContent "gemini-2.0-flash-exp" (JStr t)
                                 (JStr (normalize_voice (voice b)))] in
    if fallback_available h
    then
      match generateSystemTTS h t (normalize_voice (voice b)) with
      | (Normal audioBase64, fx') =>
          (Normal (RespAudio (JStr audioBase64) (Some (JStr "audio/aiff"))),
           call ++ fx')
      | (Throw e', fx') => (Throw e', call ++ fx')
      end
    else (Throw e, call).
Proof.
  intros Ht Hne Hk Hp. unfold generate_tts_body.
  rewrite Ht. cbn [text_substring].
  rewrite (truthy_JStr t Hne), Hk. cbn [negb].
  rewrite (try_gemini_failure h (JStr t) _ _ e Hk Hp).
  destruct (fallback_available h); reflexivity.
Qed.

(** Two runs of the route: the primary provider answers; the primary
    provider fails on a host with the fallback, and the local voice of
    ["Kore"] speaks. *)
Example generate_tts_primary_answers :
  generate_tts
    (mkHost "linux" (PrimaryReturns (Some (mkInline (JStr "AAA=") (JStr "audio/wav"))))
            None "/srv/temp_1.aiff" false "")
    (mkBody (JStr "Hello there") (JStr "Puck") (JStr "k"))
  = (RespAudio (JStr "AAA=") (Some (JStr "audio/wav")),
     [GenerateContent "gemini-2.0-flash-exp" (JStr "Hello there") (JStr "Puck")]).
Proof. vm_compute. reflexivity. Qed.

Example generate_tts_fallback_answers :
  generate_tts
    (mkHost "darwin" (PrimaryThrows (Error "quota exceeded")) None
            "/srv/temp_1.aiff" true "Rk9STQ==")
    (mkBody (JStr "hello") (JStr " Kore ") (JStr "key"))
  = (RespAudio (JStr "Rk9STQ==") (Some (JStr "audio/aiff")),
     [GenerateContent "gemini-2.0-flash-exp" (JStr "hello") (JStr "Kore");
      Exec (Say (JStr "Karen") "/srv/temp_1.aiff" "hello");
      ReadFile "/srv/temp_1.aiff"; Unlink "/srv/temp_1.aiff"]).
Proof. vm_compute. reflexivity. Qed.

(** C6.  When the primary attempt of a valid request fails, the handler has
    called the primary provider once; on a host without the fallback it
    answers with the primary failure and never calls the local synthesizer,
    and on a host with the fallback it calls the local synthesizer exactly
    once. *)
Theorem fallback_is_two_tier (h : Host) (b : Body) (t : string) (e : JsError) :
  text b = JStr t → t ≠ "" → truthy (apiKey b) = true →
  primary_failure h = Some e →
  primary_attempts (generate_tts h b).2 = 1 ∧
  if fallback_available h
  then local_attempts (generate_tts h b).2 = 1
  else generate_tts h b =
         (SynthesisFailed e,
          [GenerateContent "gemini-2.0-flash-exp" (JStr t)
                           (JStr (normalize_voice (voice b)))])
       ∧ local_attempts (generate_tts h b).2 = 0.
Proof.
  intros Ht Hne Hk Hp. unfold generate_tts.
  rewrite (generate_tts_after_primary_failure h b t e Ht Hne Hk Hp). cbn zeta.
  destruct (fallback_available h).
  - pose proof (generateSystemTTS_one_exec h t (normalize_voice (voice b))) as H1.
    pose proof (generateSystemTTS_no_primary h t (normalize_voice (voice b))) as H0.
    destruct (generateSystemTTS h t (normalize_voice (voice b))) as [[a | e'] fx'];
      cbn [fst snd] in *;
      rewrite primary_attempts_app, local_attempts_app, H0, H1; split; reflexivity.
  - repeat split.
Qed.

Lemma fallback_is_two_tier_witness :
  let h := mkHost "linux" (PrimaryThrows (Error "quota exceeded")) None
                  "/srv/temp_1.aiff" false "" in
  let b := mkBody (JStr "hello") (JStr "Kore") (JStr "key") in
  primary_attempts (generate_tts h b).2 = 1 ∧
  generate_tts h b =
    (RespError 500 "Failed to generate TTS" (Some "Error: quota exceeded"),
     [GenerateContent "gemini-2.0-flash-exp" (JStr "hello") (JStr "Kore")]) ∧
  local_attempts (generate_tts h b).2 = 0.
Proof.
  exact (fallback_is_two_tier
           (mkHost "linux" (PrimaryThrows (Error "quota exceeded")) None
                   "/srv/temp_1.aiff" false "")
           (mkBody (JStr "hello") (JStr "Kore") (JStr "key"))
           "hello" (Error "quota exceeded")
           eq_refl ltac:(discriminate) eq_refl eq_refl).
Defined.

(** The lookup never yields [undefined]: the [||] supplies a value. *)
Lemma resolve_defined (table : gmap string string) (v : string) :
  truthy (resolve table v) = true.
Proof.
  unfold resolve, js_or.
  destruct (truthy (get_property table v)) eqn:E; [exact E | reflexivity].
Qed.

(** A name that is neither in the table nor on [Object.prototype] gets the
    default. *)
Lemma resolve_default (table : gmap string string) (v : string) :
  table !! v = None → v ∉ Object_prototype_keys →
  resolve table v = JStr "Karen".
Proof.
  intros Hnone Hproto. unfold resolve, get_property. rewrite Hnone.
  rewrite bool_decide_eq_false_2 by exact Hproto. reflexivity.
Qed.

(** C7.  The name ["constructor"] is not a key of the voice table, yet the
    lookup [voiceMap[voice] || 'Karen'] does not give the default for it: the
    object literal inherits a truthy property of that name, and the handler
    hands it to the [say] command as the voice. *)
Theorem resolve_inherited_name_is_not_default :
  voiceMap !! "constructor" = None ∧
  systemVoice "constructor" = JObj "Object.prototype.constructor" ∧
  systemVoice "constructor" ≠ JStr "Karen" ∧
  (generate_tts
     (mkHost "darwin" (PrimaryThrows (Error "quota exceeded")) None
             "/srv/temp_1.aiff" true "QUlG")
     (mkBody (JStr "hi") (JStr "constructor") (JStr "k"))).2
  = [ GenerateContent "gemini-2.0-flash-exp" (JStr "hi") (JStr "constructor");
      Exec (Say (JObj "Object.prototype.constructor") "/srv/temp_1.aiff" "hi");
      ReadFile "/srv/temp_1.aiff"; Unlink "/srv/temp_1.aiff" ].
Proof.
  split; [| split; [| split]].
  - vm_compute. reflexivity.
  - vm_compute. reflexivity.
  - vm_compute. discriminate.
  - vm_compute. reflexivity.
Qed.

(** The same request body on the route of part_000 when [text] is absent:
    the log line dereferences [text] before the guard that would answer 400,
    and the outer [catch] answers 500. *)
Example generate_tts_absent_text :
  generate_tts
    (mkHost "linux" (PrimaryReturns None) None "/srv/temp_1.aiff" false "")
    (mkBody JUndefined JUndefined (JStr "k"))
  = (RespError 500 "Failed to generate TTS"
       (Some "TypeError: Cannot read properties of undefined (reading 'substring')"),
     []).
Proof. vm_compute. reflexivity. Qed.

(** C8, as stated, fails on the route without a credential guard
    (server.js:53-85): a body with a text and no [apiKey] is answered 500,
    not 400. *)
Lemma missing_apiKey_is_500_without_guard :
  let h := mkHost "linux" (PrimaryReturns None) None "/srv/temp_1.aiff" false "" in
  let b := mkBody (JStr "Hello there") JUndefined JUndefined in
  generate_tts_A h b =
    (RespError 500 "Failed to generate TTS" (Some "Error: Missing Gemini API key"), [])
  ∧ status (generate_tts_A h b).1 ≠ 400.
Proof. split; [vm_compute; reflexivity | vm_compute; discriminate]. Qed.

(** C8, amended.  A request whose [text] or [apiKey] is missing causes no
    call of the primary provider on either route.  The route without a
    credential guard answers 400 when the text is missing and 500 otherwise;
    the route of part_000 answers 400 whenever the text it received is a
    string. *)
Theorem invalid_request_makes_no_primary_attempt (h : Host) (b : Body) :
  truthy (text b) = false ∨ truthy (apiKey b) = false →
  primary_attempts (generate_tts h b).2 = 0 ∧
  primary_attempts (generate_tts_A h b).2 = 0 ∧
  status (generate_tts_A h b).1 = (if truthy (text b) then 500 else 400) ∧
  match text b with
  | JStr _ => status (generate_tts h b).1 = 400
  | _ => True
  end.
Proof.
  intros H. unfold generate_tts, generate_tts_body, generate_tts_A, createAiClient.
  destruct (text b) as [| | bt | n | t | d] eqn:Ht; cbn [text_substring];
    destruct (truthy (apiKey b)) eqn:Ek; cbn [negb];
    repeat match goal with
           | |- context [truthy ?x] => destruct (truthy x) eqn:?
           end;
    cbn in *; intuition congruence.
Qed.

Lemma invalid_request_makes_no_primary_attempt_witness :
  let h := mkHost "linux" (PrimaryReturns None) None "/srv/temp_1.aiff" false "" in
  let b := mkBody (JStr "Hello there") (JStr "Puck") (JStr "") in
  primary_attempts (generate_tts h b).2 = 0 ∧
  primary_attempts (generate_tts_A h b).2 = 0 ∧
  status (generate_tts_A h b).1 = 500 ∧
  status (generate_tts h b).1 = 400.
Proof.
  exact (invalid_request_makes_no_primary_attempt
           (mkHost "linux" (PrimaryReturns None) None "/srv/temp_1.aiff" false "")
           (mkBody (JStr "Hello there") (JStr "Puck") (JStr ""))
           (or_intror eq_refl)).
Defined.

(** C9, as stated, fails: when both tiers fail, the diagnostic of the
    response is the description of the local failure alone; the description
    of the primary failure is not part of it. *)
Lemma details_omit_primary_failure :
  let h := mkHost "darwin" (PrimaryThrows (Error "quota exceeded"))
                  (Some (Error "say: voice not found"))
                  "/srv/temp_1.aiff" false "" in
  let b := mkBody (JStr "hello") (JStr "Kore") (JStr "key") in
  primary_failure h = Some (Error "quota exceeded") ∧
  fallback_available h = true ∧
  local_failure h = Some (Error "say: voice not found") ∧
  (generate_tts h b).1 =
    RespError 500 "Failed to generate TTS" (Some "Error: say: voice not found") ∧
  includes "Error: say: voice not found" "quota exceeded" = false.
Proof. repeat split; vm_compute; reflexivity. Qed.

(** C9, amended.  When the primary attempt of a valid request fails, the
    fallback is available and the local attempt fails too, the handler
    answers 500 with the description of the local failure as its details,
    after one call of each provider. *)
Theorem both_tiers_fail_with_local_diagnostic
    (h : Host) (b : Body) (t : string) (e1 e2 : JsError) :
  text b = JStr t → t ≠ "" → truthy (apiKey b) = true →
  primary_failure h = Some e1 →
  fallback_available h = true →
  local_failure h = Some e2 →
  (generate_tts h b).1 = SynthesisFailed e2 ∧
  primary_attempts (generate_tts h b).2 = 1 ∧
  local_attempts (generate_tts h b).2 = 1.
Proof.
  intros Ht Hne Hk Hp Hf Hl. unfold generate_tts.
  rewrite (generate_tts_after_primary_failure h b t e1 Ht Hne Hk Hp). cbn zeta.
  rewrite Hf.
  destruct (generateSystemTTS_failure h t (normalize_voice (voice b)) e2 Hf Hl)
    as [cmd ->].
  repeat split.
Qed.

Lemma both_tiers_fail_with_local_diagnostic_witness :
  let h := mkHost "darwin" (PrimaryReturns None) None "/srv/temp_1.aiff" false "" in
  let b := mkBody (JStr "hello") (JStr "Kore") (JStr "key") in
  (generate_tts h b).1 =
    RespError 500 "Failed to generate TTS" (Some "Error: TTS generation failed") ∧
  primary_attempts (generate_tts h b).2 = 1 ∧
  local_attempts (generate_tts h b).2 = 1.
Proof.
  exact (both_tiers_fail_with_local_diagnostic
           (mkHost "darwin" (PrimaryReturns None) None "/srv/temp_1.aiff" false "")
           (mkBody (JStr "hello") (JStr "Kore") (JStr "key"))
           "hello" (Error "No audio data from Gemini") (Error "TTS generation failed")
           eq_refl ltac:(discriminate) eq_refl eq_refl eq_refl eq_refl).
Defined.

End TtsSpec.

(** * Properties of the live relay *)

Module RelaySpec.
Import Js Relay.

(** ** Counting calls in a trace *)

Lemma closes_emit (p : nat) (e : Effect) (c : Conn) :
  closes p (emit e c) = closes p c + (if decide (e = SessionClose p) then 1 else 0).
Proof.
  unfold closes, emit. cbn [trace].
  rewrite filter_app, length_app. f_equal.
  rewrite filter_cons. destruct (decide (e = SessionClose p)); reflexivity.
Qed.

Lemma closes_react (p q : nat) (r : Reaction) (c : Conn) :
  closes q (react p r c) =
    closes q c + (if decide (p = q ∧ r = CloseSession) then 1 else 0).
Proof.
  destruct r as [a mt |]; cbn [react]; rewrite closes_emit.
  - destruct (decide (SendRealtimeInput p a mt = SessionClose q)); [discriminate |].
    destruct (decide (p = q ∧ SendAudio a mt = CloseSession)) as [[_ ?] |];
      [discriminate | reflexivity].
  - destruct (decide (SessionClose p = SessionClose q)) as [E | N],
             (decide (p = q ∧ CloseSession = CloseSession)) as [[E' _] | N'];
      try reflexivity.
    + exfalso. apply N'. split; congruence.
    + exfalso. apply N. congruence.
Qed.

Lemma react_all_fields (p : nat) (rs : list Reaction) (c : Conn) :
  ai (react_all p rs c) = ai c ∧
  liveSessionPromise (react_all p rs c) = liveSessionPromise c ∧
  promises (react_all p rs c) = promises c.
Proof.
  revert c. induction rs as [| r rs IH]; intros c; [done |].
  cbn [react_all fold_left]. fold (react_all p rs (react p r c)).
  destruct (IH (react p r c)) as (-> & -> & ->). by destruct r.
Qed.

Lemma closes_react_all (p q : nat) (rs : list Reaction) (c : Conn) :
  closes q (react_all p rs c) =
    closes q c +
    (if decide (p = q) then length (filter (fun r => r = CloseSession) rs) else 0).
Proof.
  revert c. induction rs as [| r rs IH]; intros c.
  - cbn. destruct (decide (p = q)); lia.
  - cbn [react_all fold_left]. fold (react_all p rs (react p r c)).
    rewrite IH, closes_react, filter_cons.
    destruct (decide (p = q)) as [-> |].
    + destruct (decide (r = CloseSession)) as [-> |].
      * rewrite decide_True by done. cbn [length]. lia.
      * rewrite decide_False by (intros [_ ?]; done). lia.
    + rewrite decide_False by (intros [? _]; done). lia.
Qed.

Lemma forwarded_emit (e : Effect) (c : Conn) :
  forwarded (emit e c) =
    forwarded c ++
    match e with SendRealtimeInput p a m => [(p, a, m)] | _ => [] end.
Proof.
  unfold forwarded, emit. cbn [trace]. rewrite omap_app. f_equal. by destruct e.
Qed.

Lemma sent_emit (e : Effect) (c : Conn) :
  sent (emit e c) = sent c ++ match e with WsSend o => [o] | _ => [] end.
Proof.
  unfold sent, emit. cbn [trace]. rewrite omap_app. f_equal. by destruct e.
Qed.

Lemma connect_attempts_emit (e : Effect) (c : Conn) :
  connect_attempts (emit e c) =
    connect_attempts c ++ match e with LiveConnect p _ _ _ => [p] | _ => [] end.
Proof.
  unfold connect_attempts, emit. cbn [trace]. rewrite omap_app. f_equal. by destruct e.
Qed.

Lemma closes_emit_SessionClose (p : nat) (c : Conn) :
  closes p (emit (SessionClose p) c) = S (closes p c).
Proof. rewrite closes_emit, decide_True by reflexivity. lia. Qed.

Lemma closes_emit_WsClose (p : nat) (c : Conn) :
  closes p (emit WsClose c) = closes p c.
Proof. rewrite closes_emit, decide_False by discriminate. lia. Qed.

Lemma closes_emit_WsSend (p : nat) (o : Outbound) (c : Conn) :
  closes p (emit (WsSend o) c) = closes p c.
Proof. rewrite closes_emit, decide_False by discriminate. lia. Qed.

Lemma closes_set_promise (p q : nat) (st : PromiseState) (c : Conn) :
  closes p (set_promise q st c) = closes p c.
Proof. reflexivity. Qed.

Lemma closes_set_liveSessionPromise (p : nat) (v : option nat) (c : Conn) :
  closes p (set_liveSessionPromise v c) = closes p c.
Proof. reflexivity. Qed.

Lemma queued_closes_set_liveSessionPromise (p : nat) (v : option nat) (c : Conn) :
  queued_closes p (set_liveSessionPromise v c) = queued_closes p c.
Proof. reflexivity. Qed.

Lemma queued_closes_set_promise (p : nat) (st : PromiseState) (c : Conn) :
  p < length (promises c) →
  queued_closes p (set_promise p st c) =
    match st with
    | Pending rs => length (filter (fun r => r = CloseSession) rs)
    | _ => 0
    end.
Proof.
  intros Hlt. unfold queued_closes, set_promise. cbn [promises].
  by rewrite list_lookup_insert_eq.
Qed.

Lemma queued_closes_set_promise_ne (p q : nat) (st : PromiseState) (c : Conn) :
  p ≠ q → queued_closes p (set_promise q st c) = queued_closes p c.
Proof.
  intros Hne. unfold queued_closes, set_promise. cbn [promises].
  by rewrite list_lookup_insert_ne.
Qed.

Lemma queued_closes_emit (p : nat) (e : Effect) (c : Conn) :
  queued_closes p (emit e c) = queued_closes p c.
Proof. reflexivity. Qed.

Lemma count_closes_snoc (rs : list Reaction) :
  length (filter (fun r => r = CloseSession) (rs ++ [CloseSession])) =
    S (length (filter (fun r => r = CloseSession) rs)).
Proof.
  rewrite filter_app, length_app, filter_cons_True by reflexivity.
  cbn [filter list_filter length]. lia.
Qed.

Lemma count_closes_snoc_audio (rs : list Reaction) (a mt : JsVal) :
  length (filter (fun r => r = CloseSession) (rs ++ [SendAudio a mt])) =
    length (filter (fun r => r = CloseSession) rs).
Proof.
  rewrite filter_app, length_app, filter_cons_False by discriminate.
  cbn [filter list_filter length]. lia.
Qed.

Lemma queued_closes_react_all (p q : nat) (rs : list Reaction) (c : Conn) :
  queued_closes q (react_all p rs c) = queued_closes q c.
Proof.
  unfold queued_closes. by destruct (react_all_fields p rs c) as (_ & _ & ->).
Qed.

Lemma forwarded_react_all (p : nat) (rs : list Reaction) (c : Conn) :
  forwarded (react_all p rs c) = forwarded c ++ queued_audio p rs.
Proof.
  revert c. induction rs as [| r rs IH]; intros c.
  - cbn. by rewrite app_nil_r.
  - cbn [react_all fold_left]. fold (react_all p rs (react p r c)).
    rewrite IH. destruct r as [a mt |]; cbn [react]; rewrite forwarded_emit.
    + by rewrite <- app_assoc.
    + by rewrite app_nil_r.
Qed.

Lemma queued_audio_snoc (p : nat) (rs : list Reaction) (a mt : JsVal) :
  queued_audio p (rs ++ [SendAudio a mt]) = queued_audio p rs ++ [(p, a, mt)].
Proof. unfold queued_audio. by rewrite omap_app. Qed.

(** ** The branches of the message handler *)

Lemma is_type_connect (m : Message) :
  type m = JStr "connect" → is_type m "connect" = true.
Proof. intros H. unfold is_type. rewrite H. reflexivity. Qed.

Lemma is_type_audio_input (m : Message) :
  type m = JStr "audio-input" →
  is_type m "connect" = false ∧ is_type m "audio-input" = true.
Proof. intros H. unfold is_type. rewrite H. split; reflexivity. Qed.

Lemma is_type_disconnect (m : Message) :
  type m = JStr "disconnect" →
  is_type m "connect" = false ∧ is_type m "audio-input" = false ∧
  is_type m "disconnect" = true.
Proof. intros H. unfold is_type. rewrite H. repeat split; reflexivity. Qed.

Section Handlers.

Variable GEMINI_LIVE_MODEL : string.

Abbreviation on_message := (on_message GEMINI_LIVE_MODEL).
Abbreviation run := (run GEMINI_LIVE_MODEL).

(** What a [disconnect] message does, by the state of the held handle. *)
Lemma on_message_disconnect (sdk : Sdk) (m : Message) (c : Conn) :
  type m = JStr "disconnect" →
  on_message sdk (Parsed m) c =
    match liveSessionPromise c with
    | None => emit WsClose c
    | Some p =>
        match promises c !! p with
        | Some (Pending rs) =>
            emit WsClose
              (set_liveSessionPromise None
                 (set_promise p (Pending (rs ++ [CloseSession])) c))
        | Some Fulfilled =>
            emit (SessionClose p) (emit WsClose (set_liveSessionPromise None c))
        | _ => emit WsClose (set_liveSessionPromise None c)
        end
    end.
Proof.
  intros H. destruct (is_type_disconnect m H) as (E1 & E2 & E3).
  unfold Relay.on_message. rewrite E1, E2, E3.
  unfold on_disconnect, then_.
  destruct (liveSessionPromise c) as [p |]; [| reflexivity].
  destruct (promises c !! p) as [[rs | | e] |]; reflexivity.
Qed.

(** C3.  A [connect] message whose [apiKey] is absent, empty or otherwise
    falsy leaves the closure as it was, in particular idle when it was idle,
    makes no call of [ai.live.connect], and sends exactly one envelope, an
    [error] one. *)
Theorem connect_without_credential (sdk : Sdk) (m : Message) (c : Conn) :
  type m = JStr "connect" →
  truthy (from_option apiKey JUndefined (config m)) = false →
  let c' := on_message sdk (Parsed m) c in
  liveSessionPromise c' = liveSessionPromise c ∧
  idle c' = idle c ∧
  promises c' = promises c ∧
  connect_attempts c' = connect_attempts c ∧
  sent c' = sent c ++ [ErrorEnvelope "Missing API key"] ∧
  length (filter (fun o => is_error o = true) (sent c')) =
    S (length (filter (fun o => is_error o = true) (sent c))).
Proof.
  intros Ht Hk. cbn zeta.
  unfold Relay.on_message, on_connect. rewrite (is_type_connect m Ht), Hk.
  cbn [negb]. rewrite sent_emit, connect_attempts_emit, app_nil_r.
  repeat split; try reflexivity.
  rewrite filter_app, length_app.
  rewrite filter_cons_True by reflexivity. cbn [filter list_filter length]. lia.
Qed.

(** C10.  A [disconnect] message calls [ws.close()] whatever the closure
    holds: the call follows the calls made so far, and only a
    [session.close()] on an already resolved handle comes after it.  With no
    handle held, the call of [ws.close()] is all that happens. *)
Theorem disconnect_closes_transport (sdk : Sdk) (m : Message) (c : Conn) :
  type m = JStr "disconnect" →
  trace (on_message sdk (Parsed m) c) =
    trace c ++ WsClose ::
      match liveSessionPromise c with
      | Some p =>
          match promises c !! p with
          | Some Fulfilled => [SessionClose p]
          | _ => []
          end
      | None => []
      end
  ∧ if idle c then on_message sdk (Parsed m) c = emit WsClose c else True.
Proof.
  intros Ht. rewrite (on_message_disconnect sdk m c Ht). unfold idle.
  destruct (liveSessionPromise c) as [p |]; [| done].
  split; [| done].
  destruct (promises c !! p) as [[rs | | e] |]; cbn; try reflexivity.
  by rewrite <- app_assoc.
Qed.

(** When the connection of call [q] resolves, its handle has been closed as
    often as it was closed before plus as often as a close was queued. *)
Lemma closes_resolve_promise (q : nat) (c : Conn) :
  closes q (resolve_promise q c) = closes q c + queued_closes q c.
Proof.
  unfold resolve_promise, queued_closes.
  destruct (promises c !! q) as [[rs | | e] |]; try lia.
  rewrite closes_react_all, decide_True by reflexivity.
  by rewrite closes_set_promise.
Qed.

(** One [disconnect] message requests one [session.close()] on the handle
    the closure holds, none on any other, and leaves no handle held. *)
Lemma disconnect_requests_one_close (sdk : Sdk) (m : Message) (c : Conn) (q : nat) :
  type m = JStr "disconnect" →
  liveSessionPromise (on_message sdk (Parsed m) c) = None ∧
  closes q (on_message sdk (Parsed m) c) + queued_closes q (on_message sdk (Parsed m) c)
    = closes q c + queued_closes q c
      + (if decide (held_handle c = Some q) then 1 else 0).
Proof.
  intros Ht. rewrite (on_message_disconnect sdk m c Ht). unfold held_handle.
  destruct (liveSessionPromise c) as [p |] eqn:Hl.
  2: { rewrite closes_emit_WsClose, queued_closes_emit.
       rewrite decide_False by discriminate. split; [exact Hl | lia]. }
  destruct (promises c !! p) as [[rs | | e] |] eqn:Hp.
  - assert (Hlt : p < length (promises c)) by (eapply lookup_lt_Some; exact Hp).
    split; [reflexivity |].
    rewrite closes_emit_WsClose, queued_closes_emit,
      closes_set_liveSessionPromise, queued_closes_set_liveSessionPromise,
      closes_set_promise.
    destruct (decide (Some p = Some q)) as [E | N].
    + injection E as <-. rewrite (queued_closes_set_promise p _ c Hlt), count_closes_snoc.
      unfold queued_closes. rewrite Hp. lia.
    + rewrite queued_closes_set_promise_ne by congruence. lia.
  - split; [reflexivity |].
    rewrite closes_emit, queued_closes_emit, closes_emit_WsClose, queued_closes_emit,
      closes_set_liveSessionPromise, queued_closes_set_liveSessionPromise.
    destruct (decide (SessionClose p = SessionClose q)) as [E | N],
             (decide (Some p = Some q)) as [E' | N']; try lia; congruence.
  - split; [reflexivity |].
    rewrite closes_emit_WsClose, queued_closes_emit,
      closes_set_liveSessionPromise, queued_closes_set_liveSessionPromise.
    rewrite decide_False by discriminate. lia.
  - split; [reflexivity |].
    rewrite closes_emit_WsClose, queued_closes_emit,
      closes_set_liveSessionPromise, queued_closes_set_liveSessionPromise.
    rewrite decide_False by discriminate. lia.
Qed.

Lemma held_handle_None (c : Conn) :
  liveSessionPromise c = None → held_handle c = None.
Proof. unfold held_handle. by intros ->. Qed.

(** C5.  Of two [disconnect] messages in a row, the first requests
    [session.close()] once on the handle the closure holds (a call when the
    connection has resolved, a queued callback while it is pending) and on no
    other handle; the second requests none, sends no envelope and only calls
    [ws.close()] again.  Once its connection has resolved, the held handle
    has been closed exactly once more than without the two messages. *)
Theorem disconnect_twice_closes_once (sdk1 sdk2 : Sdk) (m : Message) (c : Conn) :
  type m = JStr "disconnect" →
  let c1 := on_message sdk1 (Parsed m) c in
  let c2 := on_message sdk2 (Parsed m) c1 in
  let once q := if decide (held_handle c = Some q) then 1 else 0 in
  c2 = emit WsClose c1 ∧
  sent c2 = sent c1 ∧
  liveSessionPromise c2 = None ∧
  ∀ q,
    closes q c1 + queued_closes q c1 = closes q c + queued_closes q c + once q ∧
    closes q c2 + queued_closes q c2 = closes q c + queued_closes q c + once q ∧
    closes q (resolve_promise q c2) = closes q (resolve_promise q c) + once q.
Proof.
  intros Ht. cbn zeta.
  destruct (disconnect_requests_one_close sdk1 m c 0 Ht) as [Hnone _].
  assert (E2 : on_message sdk2 (Parsed m) (on_message sdk1 (Parsed m) c)
               = emit WsClose (on_message sdk1 (Parsed m) c)).
  { rewrite (on_message_disconnect sdk2 m _ Ht). by rewrite Hnone. }
  split; [exact E2 |]. split.
  { rewrite E2, sent_emit. by rewrite app_nil_r. }
  split.
  { rewrite E2. exact Hnone. }
  intros q.
  destruct (disconnect_requests_one_close sdk1 m c q Ht) as [_ H1].
  destruct (disconnect_requests_one_close sdk2 m (on_message sdk1 (Parsed m) c) q Ht)
    as [_ H2].
  rewrite (held_handle_None _ Hnone) in H2.
  rewrite decide_False in H2 by discriminate.
  rewrite !closes_resolve_promise. lia.
Qed.

(** What an [audio-input] message does, by the state of the held handle. *)
Lemma on_message_audio_input (sdk : Sdk) (m : Message) (c : Conn) :
  type m = JStr "audio-input" →
  on_message sdk (Parsed m) c =
    match liveSessionPromise c with
    | None => c
    | Some p =>
        match promises c !! p with
        | Some (Pending rs) =>
            set_promise p (Pending (rs ++ [SendAudio (audioData m) (mimeType m)])) c
        | Some Fulfilled => emit (SendRealtimeInput p (audioData m) (mimeType m)) c
        | _ => c
        end
    end.
Proof.
  intros H. destruct (is_type_audio_input m H) as (E1 & E2).
  unfold Relay.on_message. rewrite E1, E2.
  unfold on_audio_input, then_.
  destruct (liveSessionPromise c) as [p |]; [| reflexivity].
  destruct (promises c !! p) as [[rs | | e] |]; reflexivity.
Qed.

(** C2, amended.  An [audio-input] frame is dropped, leaving the closure as
    it was, when no handle is held or the held connection was refused.  While
    the held connection is pending nothing is forwarded yet, and the frame is
    forwarded after the frames queued before it when the connection resolves.
    Once the connection has resolved the frame is forwarded at once. *)
Theorem audio_input_dropped_or_deferred (sdk : Sdk) (m : Message) (c : Conn) :
  type m = JStr "audio-input" →
  let c' := on_message sdk (Parsed m) c in
  match liveSessionPromise c with
  | None => c' = c
  | Some p =>
      match promises c !! p with
      | Some (Pending rs) =>
          forwarded c' = forwarded c ∧
          forwarded (resolve_promise p c') =
            forwarded (resolve_promise p c) ++ [(p, audioData m, mimeType m)]
      | Some Fulfilled =>
          forwarded c' = forwarded c ++ [(p, audioData m, mimeType m)]
      | _ => c' = c
      end
  end.
Proof.
  intros Ht. cbn zeta. rewrite (on_message_audio_input sdk m c Ht).
  destruct (liveSessionPromise c) as [p |]; [| reflexivity].
  destruct (promises c !! p) as [[rs | | e] |] eqn:Hp; try reflexivity.
  - assert (Hlt : p < length (promises c)) by (eapply lookup_lt_Some; exact Hp).
    split; [reflexivity |].
    unfold resolve_promise. cbn [promises set_promise].
    rewrite list_lookup_insert_eq by exact Hlt. rewrite Hp.
    rewrite !forwarded_react_all, queued_audio_snoc, app_assoc.
    reflexivity.
  - by rewrite forwarded_emit.
Qed.

(** C4, amended.  An accepted [connect] message starts a new backend
    connection and makes it the handle the closure holds; it neither calls nor
    queues [session.close()] on any handle, so every handle that was live
    stays live. *)
Theorem connect_replaces_handle (m : Message) (c : Conn) :
  type m = JStr "connect" →
  truthy (from_option apiKey JUndefined (config m)) = true →
  let c' := on_message SdkReturns (Parsed m) c in
  let p := length (promises c) in
  liveSessionPromise c' = Some p ∧
  connect_attempts c' = connect_attempts c ++ [p] ∧
  promises c' = promises c ++ [Pending []] ∧
  (∀ q, closes q c' = closes q c ∧ queued_closes q c' = queued_closes q c) ∧
  (∀ q, live q c = true → live q c' = true).
Proof.
  intros Ht Hk. cbn zeta.
  unfold Relay.on_message, on_connect. rewrite (is_type_connect m Ht), Hk.
  cbn [negb liveSessionPromise promises].
  assert (Hcl : ∀ q e, (∀ x, e ≠ SessionClose x) →
            length (filter (λ e0, e0 = SessionClose q) (trace c ++ [e])) = closes q c).
  { intros q e He. rewrite filter_app, length_app.
    rewrite filter_cons_False by apply He. unfold closes.
    cbn [filter list_filter length]. lia. }
  split; [reflexivity |]. split.
  { unfold connect_attempts. cbn [trace]. by rewrite omap_app. }
  split; [reflexivity |]. split.
  - intros q. split.
    + unfold closes at 1. cbn [trace]. apply Hcl. discriminate.
    + unfold queued_closes. cbn [promises].
      destruct (decide (q < length (promises c))) as [Hlt | Hge].
      * by rewrite lookup_app_l.
      * rewrite (lookup_ge_None_2 (promises c) q) by lia.
        destruct (decide (q = length (promises c))) as [-> | Hne].
        -- by rewrite list_lookup_middle.
        -- rewrite lookup_ge_None_2; [done |]. rewrite length_app. cbn. lia.
  - intros q. unfold live.
    rewrite !andb_true_iff, !bool_decide_eq_true. intros [[Hin Hpr] Hcz].
    repeat split.
    + unfold connect_attempts. cbn [trace]. rewrite omap_app.
      apply elem_of_app. by left.
    + cbn [promises].
      destruct (promises c !! q) as [st |] eqn:Hq; [| done].
      by rewrite (lookup_app_l_Some _ _ _ _ Hq).
    + unfold closes at 1. cbn [trace]. rewrite Hcl by discriminate. exact Hcz.
Qed.

(** After the transport has closed, one more event from the backend keeps
    the held handle and requests no close: a close is called only if it was
    already queued. *)
Lemma step_from_backend (c : Conn) (ev : Event) (q : nat) :
  from_backend ev = true →
  liveSessionPromise (step GEMINI_LIVE_MODEL c ev) = liveSessionPromise c ∧
  closes q c ≤ closes q (step GEMINI_LIVE_MODEL c ev) ∧
  closes q (step GEMINI_LIVE_MODEL c ev) + queued_closes q (step GEMINI_LIVE_MODEL c ev)
    ≤ closes q c + queued_closes q c.
Proof.
  destruct ev as [sdk f | | err | p | p sc | p | p err | p | p err];
    intros Hb; try discriminate; cbn [step];
    unfold on_close, on_error, onopen, onmessage, onclose, onerror;
    rewrite ?closes_emit_WsSend, ?queued_closes_emit;
    try (cbn [emit liveSessionPromise]; repeat split; lia).
  - unfold resolve_promise.
    destruct (promises c !! p) as [[rs | | e] |] eqn:Hp; try (repeat split; lia).
    assert (Hlt : p < length (promises c)) by (eapply lookup_lt_Some; exact Hp).
    destruct (react_all_fields p rs (set_promise p Fulfilled c)) as (_ & -> & _).
    rewrite closes_react_all, queued_closes_react_all, closes_set_promise.
    split; [reflexivity |].
    destruct (decide (p = q)) as [-> | Hne].
    + rewrite (queued_closes_set_promise q _ c Hlt).
      unfold queued_closes. rewrite Hp. lia.
    + rewrite queued_closes_set_promise_ne by congruence. lia.
  - unfold reject_promise.
    destruct (promises c !! p) as [[rs | | e] |] eqn:Hp; try (repeat split; lia).
    assert (Hlt : p < length (promises c)) by (eapply lookup_lt_Some; exact Hp).
    rewrite closes_set_promise. split; [reflexivity |].
    destruct (decide (p = q)) as [-> | Hne].
    + rewrite (queued_closes_set_promise q _ c Hlt). lia.
    + rewrite queued_closes_set_promise_ne by congruence. lia.
Qed.

Lemma run_from_backend (evs : list Event) (c : Conn) (q : nat) :
  forallb from_backend evs = true →
  liveSessionPromise (run evs c) = liveSessionPromise c ∧
  closes q c ≤ closes q (run evs c) ∧
  closes q (run evs c) + queued_closes q (run evs c)
    ≤ closes q c + queued_closes q c.
Proof.
  revert c. induction evs as [| ev evs IH]; intros c Hall.
  - cbn. repeat split; lia.
  - cbn [forallb] in Hall. apply andb_true_iff in Hall as [Hev Hall].
    cbn [Relay.run fold_left]. fold (run evs (step GEMINI_LIVE_MODEL c ev)).
    destruct (IH (step GEMINI_LIVE_MODEL c ev) Hall) as (-> & Hle & Hsum).
    destruct (step_from_backend c ev q Hev) as (-> & Hle' & Hsum').
    repeat split; lia.
Qed.

(** C1, amended.  The close of the transport changes nothing in the
    closure.  Whatever the backend does afterwards, the closure keeps the
    handle it held, and [session.close()] is called on a handle at most as
    often as it had been queued before the close; a backend-open that arrives
    after the close sends [connected] like any other. *)
Theorem transport_close_releases_nothing (c : Conn) (evs : list Event) :
  forallb from_backend evs = true →
  on_close c = c ∧
  let c' := run (TransportClose :: evs) c in
  liveSessionPromise c' = liveSessionPromise c ∧
  (∀ q, closes q c ≤ closes q c' ∧ closes q c' ≤ closes q c + queued_closes q c) ∧
  (∀ p, sent (step GEMINI_LIVE_MODEL c' (BackendOpen p)) = sent c' ++ [Connected]).
Proof.
  intros Hall. split; [reflexivity |]. cbn zeta.
  change (run (TransportClose :: evs) c) with (run evs c).
  split; [| split].
  - by destruct (run_from_backend evs c 0 Hall) as (-> & _).
  - intros q. destruct (run_from_backend evs c q Hall) as (_ & Hle & Hsum). lia.
  - intros p. cbn [step]. unfold onopen. by rewrite sent_emit.
Qed.

End Handlers.

(** ** Concrete runs *)

Lemma connect_without_credential_witness :
  let m := mkMessage (JStr "connect")
             (Some (mkConfig (JStr "Kore") (JStr "Ana") (JStr "")))
             JUndefined JUndefined in
  let c' := on_message default_live_model SdkReturns (Parsed m) connection in
  liveSessionPromise c' = None ∧
  idle c' = true ∧
  promises c' = [] ∧
  connect_attempts c' = [] ∧
  sent c' = [ErrorEnvelope "Missing API key"] ∧
  length (filter (fun o => is_error o = true) (sent c')) = 1.
Proof.
  exact (connect_without_credential default_live_model SdkReturns
           (mkMessage (JStr "connect")
              (Some (mkConfig (JStr "Kore") (JStr "Ana") (JStr "")))
              JUndefined JUndefined)
           connection eq_refl eq_refl).
Defined.

Lemma disconnect_closes_transport_witness :
  let m := mkMessage (JStr "disconnect") None JUndefined JUndefined in
  trace (on_message default_live_model SdkReturns (Parsed m) connection) = [WsClose] ∧
  on_message default_live_model SdkReturns (Parsed m) connection = emit WsClose connection.
Proof.
  exact (disconnect_closes_transport default_live_model SdkReturns
           (mkMessage (JStr "disconnect") None JUndefined JUndefined)
           connection eq_refl).
Defined.

Lemma disconnect_twice_closes_once_witness :
  let connect := mkMessage (JStr "connect")
                   (Some (mkConfig (JStr "Kore") (JStr "Ana") (JStr "key")))
                   JUndefined JUndefined in
  let m := mkMessage (JStr "disconnect") None JUndefined JUndefined in
  let c := run default_live_model [ClientMessage SdkReturns (Parsed connect);
                BackendOpen 0; ConnectResolved 0] connection in
  let c1 := on_message default_live_model SdkReturns (Parsed m) c in
  let c2 := on_message default_live_model SdkReturns (Parsed m) c1 in
  let once q := if decide (held_handle c = Some q) then 1 else 0 in
  c2 = emit WsClose c1 ∧
  sent c2 = sent c1 ∧
  liveSessionPromise c2 = None ∧
  ∀ q,
    closes q c1 + queued_closes q c1 = closes q c + queued_closes q c + once q ∧
    closes q c2 + queued_closes q c2 = closes q c + queued_closes q c + once q ∧
    closes q (resolve_promise q c2) = closes q (resolve_promise q c) + once q.
Proof.
  exact (disconnect_twice_closes_once default_live_model SdkReturns SdkReturns
           (mkMessage (JStr "disconnect") None JUndefined JUndefined)
           (run default_live_model [ClientMessage SdkReturns
                   (Parsed (mkMessage (JStr "connect")
                      (Some (mkConfig (JStr "Kore") (JStr "Ana") (JStr "key")))
                      JUndefined JUndefined));
                 BackendOpen 0; ConnectResolved 0] connection)
           eq_refl).
Defined.

(** The run of the witness above, call by call: one [session.close()]. *)
Example disconnect_twice_trace :
  let connect := mkMessage (JStr "connect")
                   (Some (mkConfig (JStr "Kore") (JStr "Ana") (JStr "key")))
                   JUndefined JUndefined in
  let m := mkMessage (JStr "disconnect") None JUndefined JUndefined in
  trace (run default_live_model
           [ClientMessage SdkReturns (Parsed connect);
            BackendOpen 0; ConnectResolved 0;
            ClientMessage SdkReturns (Parsed m);
            ClientMessage SdkReturns (Parsed m)] connection)
  = [LiveConnect 0 default_live_model "Kore" (JStr "Ana"); WsSend Connected;
     WsClose; SessionClose 0; WsClose].
Proof. vm_compute. reflexivity. Qed.

(** C1, as stated, fails: the transport closes while the backend connection
    is pending, the backend then opens and the connection resolves; the open
    sends [connected], no [session.close()] is ever called, and the handle
    stays live and held. *)
Lemma transport_close_leaves_handle_live :
  let connect := mkMessage (JStr "connect")
                   (Some (mkConfig (JStr "Kore") (JStr "Ana") (JStr "key")))
                   JUndefined JUndefined in
  let c := run default_live_model
             [ClientMessage SdkReturns (Parsed connect); TransportClose;
              BackendOpen 0; ConnectResolved 0] connection in
  trace c = [LiveConnect 0 default_live_model "Kore" (JStr "Ana"); WsSend Connected] ∧
  liveSessionPromise c = Some 0 ∧
  promises c = [Fulfilled] ∧
  closes 0 c = 0 ∧
  live 0 c = true.
Proof. repeat split; vm_compute; reflexivity. Qed.

Lemma transport_close_releases_nothing_witness :
  let connect := mkMessage (JStr "connect")
                   (Some (mkConfig (JStr "Kore") (JStr "Ana") (JStr "key")))
                   JUndefined JUndefined in
  let c := run default_live_model [ClientMessage SdkReturns (Parsed connect)]
             connection in
  let evs := [BackendOpen 0; ConnectResolved 0] in
  on_close c = c ∧
  let c' := run default_live_model (TransportClose :: evs) c in
  liveSessionPromise c' = liveSessionPromise c ∧
  (∀ q, closes q c ≤ closes q c' ∧ closes q c' ≤ closes q c + queued_closes q c) ∧
  (∀ p, sent (step default_live_model c' (BackendOpen p)) = sent c' ++ [Connected]).
Proof.
  exact (transport_close_releases_nothing default_live_model
           (run default_live_model
              [ClientMessage SdkReturns
                 (Parsed (mkMessage (JStr "connect")
                    (Some (mkConfig (JStr "Kore") (JStr "Ana") (JStr "key")))
                    JUndefined JUndefined))]
              connection)
           [BackendOpen 0; ConnectResolved 0] eq_refl).
Defined.

(** C2, as stated, fails: an [audio-input] frame that arrives while the
    backend connection is still pending is not dropped; it is handed to the
    backend handle when the connection resolves. *)
Lemma audio_input_while_connecting_is_forwarded :
  let connect := mkMessage (JStr "connect")
                   (Some (mkConfig (JStr "Kore") (JStr "Ana") (JStr "key")))
                   JUndefined JUndefined in
  let audio := mkMessage (JStr "audio-input") None
                 (JStr "AAAA") (JStr "audio/pcm;rate=16000") in
  let c := run default_live_model
             [ClientMessage SdkReturns (Parsed connect);
              ClientMessage SdkReturns (Parsed audio)] connection in
  connecting c = true ∧
  sent c = [] ∧
  forwarded c = [] ∧
  forwarded (run default_live_model [BackendOpen 0; ConnectResolved 0] c) =
    [(0, JStr "AAAA", JStr "audio/pcm;rate=16000")].
Proof. repeat split; vm_compute; reflexivity. Qed.

Lemma audio_input_dropped_or_deferred_witness :
  let connect := mkMessage (JStr "connect")
                   (Some (mkConfig (JStr "Kore") (JStr "Ana") (JStr "key")))
                   JUndefined JUndefined in
  let audio := mkMessage (JStr "audio-input") None
                 (JStr "AAAA") (JStr "audio/pcm;rate=16000") in
  let c := run default_live_model [ClientMessage SdkReturns (Parsed connect)]
             connection in
  let c' := on_message default_live_model SdkReturns (Parsed audio) c in
  forwarded c' = forwarded c ∧
  forwarded (resolve_promise 0 c') =
    forwarded (resolve_promise 0 c) ++ [(0, JStr "AAAA", JStr "audio/pcm;rate=16000")].
Proof.
  exact (audio_input_dropped_or_deferred default_live_model SdkReturns
           (mkMessage (JStr "audio-input") None
              (JStr "AAAA") (JStr "audio/pcm;rate=16000"))
           (run default_live_model
              [ClientMessage SdkReturns
                 (Parsed (mkMessage (JStr "connect")
                    (Some (mkConfig (JStr "Kore") (JStr "Ana") (JStr "key")))
                    JUndefined JUndefined))]
              connection)
           eq_refl).
Defined.

(** C4, as stated, fails: a second [connect] on an open session starts a
    second backend connection without any [session.close()] on the first;
    both handles are live afterwards and only the second is held. *)
Lemma reconnect_leaves_two_handles_live :
  let connect := mkMessage (JStr "connect")
                   (Some (mkConfig (JStr "Kore") (JStr "Ana") (JStr "key")))
                   JUndefined JUndefined in
  let c := run default_live_model
             [ClientMessage SdkReturns (Parsed connect);
              BackendOpen 0; ConnectResolved 0;
              ClientMessage SdkReturns (Parsed connect)] connection in
  trace c = [LiveConnect 0 default_live_model "Kore" (JStr "Ana");
             WsSend Connected;
             LiveConnect 1 default_live_model "Kore" (JStr "Ana")] ∧
  liveSessionPromise c = Some 1 ∧
  closes 0 c = 0 ∧
  live 0 c = true ∧
  live 1 c = true.
Proof. repeat split; vm_compute; reflexivity. Qed.

Lemma connect_replaces_handle_witness :
  let connect := mkMessage (JStr "connect")
                   (Some (mkConfig (JStr "Kore") (JStr "Ana") (JStr "key")))
                   JUndefined JUndefined in
  let c := run default_live_model
             [ClientMessage SdkReturns (Parsed connect);
              BackendOpen 0; ConnectResolved 0] connection in
  let c' := on_message default_live_model SdkReturns (Parsed connect) c in
  liveSessionPromise c' = Some 1 ∧
  connect_attempts c' = [0; 1] ∧
  promises c' = [Fulfilled; Pending []] ∧
  (∀ q, closes q c' = closes q c ∧ queued_closes q c' = queued_closes q c) ∧
  (∀ q, live q c = true → live q c' = true).
Proof.
  exact (connect_replaces_handle default_live_model
           (mkMessage (JStr "connect")
              (Some (mkConfig (JStr "Kore") (JStr "Ana") (JStr "key")))
              JUndefined JUndefined)
           (run default_live_model
              [ClientMessage SdkReturns
                 (Parsed (mkMessage (JStr "connect")
                    (Some (mkConfig (JStr "Kore") (JStr "Ana") (JStr "key")))
                    JUndefined JUndefined));
               BackendOpen 0; ConnectResolved 0] connection)
           eq_refl eq_refl).
Defined.

End RelaySpec.

(** * Further properties of the speech-synthesis endpoint *)

Module TtsFacts.
Import Js Tts.

(** ** [trim] *)









(** ** The primary tier *)

Lemma try_gemini_success (h : Host) (txt : JsVal) (v : string) (k : JsVal) :
  truthy k = true →
  primary_failure h = None →
  ∃ a m,
    try_gemini h txt v k =
      (Normal (a, m), [GenerateContent "gemini-2.0-flash-exp" txt (JStr v)]) ∧
    truthy a = true.
Proof.
  intros Hk Hp. unfold try_gemini, createAiClient, primary_failure in *.
  rewrite Hk. cbn [negb].
  destruct (primary h) as [e | audioData]; [discriminate |].
  destruct (truthy (nullish (from_option data JUndefined audioData) (JStr ""))) eqn:E;
    [| discriminate].
  cbn [negb]. eexists _, _. split; [reflexivity | exact E].
Qed.

(** The route on a body that passes both guards. *)
Lemma generate_tts_valid (h : Host) (b : Body) (t : string) :
  text b = JStr t → t ≠ "" → truthy (apiKey b) = true →
  let v := normalize_voice (voice b) in
  let call := [GenerateContent "gemini-2.0-flash-exp" (JStr t) (JStr v)] in
  match primary_failure h with
  | None => ∃ a m, truthy a = true ∧ generate_tts h b = (RespAudio a (Some m), call)
  | Some e =>
      if fallback_available h
      then
        match local_failure h with
        | None =>
            generate_tts h b =
              (RespAudio (JStr (tempFile_base64 h)) (Some (JStr "audio/aiff")),
               call ++ [Exec (Say (systemVoice v) (tempFile h) t);
                        ReadFile (tempFile h); Unlink (tempFile h)])
        | Some e' =>
            generate_tts h b =
              (SynthesisFailed e', call ++ [Exec (Say (systemVoice v) (tempFile h) t)])
        end
      else generate_tts h b = (SynthesisFailed e, call)
  end.
Proof.
  intros Ht Hne Hk. cbn zeta.
  destruct (primary_failure h) as [e |] eqn:Hp.
  - unfold generate_tts.
    rewrite (TtsSpec.generate_tts_after_primary_failure h b t e Ht Hne Hk Hp).
    cbn zeta. destruct (fallback_available h) eqn:Hf; [| reflexivity].
    unfold generateSystemTTS, local_failure.
    unfold fallback_available in Hf. rewrite Hf.
    destruct (exec_error h) as [e' |]; [reflexivity |].
    destruct (tempFile_exists h); reflexivity.
  - destruct (try_gemini_success h (JStr t) (normalize_voice (voice b)) _ Hk Hp)
      as (a & m & Htry & Ha).
    exists a, m. split; [exact Ha |].
    unfold generate_tts, generate_tts_body.
    rewrite Ht. cbn [text_substring].
    rewrite (TtsSpec.truthy_JStr t Hne), Hk. cbn [negb].
    by rewrite Htry.
Qed.

(** The route on a body that fails a guard or whose text is no string: no
    provider is called. *)
Lemma generate_tts_invalid (h : Host) (b : Body) :
  (∀ t, text b = JStr t → t = "" ∨ truthy (apiKey b) = false) →
  (generate_tts h b).2 = [].
Proof.
  intros H. unfold generate_tts, generate_tts_body.
  destruct (text b) as [| | bt | n | t | d] eqn:Ht; cbn [text_substring]; try reflexivity.
  destruct (H t eq_refl) as [-> | Hk]; [reflexivity |].
  rewrite Hk. by destruct (truthy (JStr t)).
Qed.

(** X2.  Whatever the request and the host, the route calls the primary
    provider at most once and the local synthesizer at most once, and it
    calls the local synthesizer only after a failed primary call on a host
    with the fallback. *)
Theorem at_most_one_attempt_per_tier (h : Host) (b : Body) :
  primary_attempts (generate_tts h b).2 ≤ 1 ∧
  local_attempts (generate_tts h b).2 ≤ 1 ∧
  (local_attempts (generate_tts h b).2 = 0 ∨
   primary_attempts (generate_tts h b).2 = 1 ∧
   fallback_available h = true ∧ primary_failure h ≠ None).
Proof.
  destruct (text b) as [| | bt | n | t | d] eqn:Ht;
    try (rewrite generate_tts_invalid by (intros ? ?; congruence);
         split; [| split]; [cbn; lia | cbn; lia | by left]).
  destruct (String.eqb_spec t "") as [-> | Hne].
  { rewrite generate_tts_invalid by (intros ? ?; left; congruence).
    split; [| split]; [cbn; lia | cbn; lia | by left]. }
  destruct (truthy (apiKey b)) eqn:Hk.
  2: { rewrite generate_tts_invalid by (intros ? ?; by right).
       split; [| split]; [cbn; lia | cbn; lia | by left]. }
  pose proof (generate_tts_valid h b t Ht Hne Hk) as H. cbn zeta in H.
  destruct (primary_failure h) as [e |] eqn:Hp.
  - destruct (fallback_available h) eqn:Hf.
    + destruct (local_failure h); rewrite H;
        (split; [| split]; [vm_compute; lia | vm_compute; lia |]);
        right; (split; [reflexivity | split; [reflexivity | discriminate]]).
    + rewrite H. split; [| split]; [vm_compute; lia | vm_compute; lia | by left].
  - destruct H as (a & m & _ & ->).
    split; [| split]; [vm_compute; lia | vm_compute; lia | by left].
Qed.





(** X19.  On the route of part_000 a [text] that is not a string never
    reaches the guards: the log line throws on it, and the answer is 500 with
    a [TypeError] as its details and no provider call, whatever else the body
    holds. *)
Theorem non_string_text_is_500 (h : Host) (b : Body) :
  (∀ t, text b ≠ JStr t) →
  ∃ msg,
    generate_tts h b =
      (RespError 500 "Failed to generate TTS" (Some ("TypeError: " +:+ msg)), []).
Proof.
  intros Hns. unfold generate_tts, generate_tts_body.
  destruct (text b) as [| | bt | n | t | d] eqn:Ht; cbn [text_substring];
    try (eexists; reflexivity).
  by destruct (Hns t).
Qed.

Lemma non_string_text_is_500_witness :
  ∃ msg,
    generate_tts
      (mkHost "darwin"
         (PrimaryReturns (Some (mkInline (JStr "AAA=") (JStr "audio/wav"))))
         None "/srv/temp_1.aiff" true "QUlG")
      (mkBody (JNum 42) (JStr "Kore") (JStr "key")) =
      (RespError 500 "Failed to generate TTS" (Some ("TypeError: " +:+ msg)), []).
Proof.
  exact (non_string_text_is_500
           (mkHost "darwin"
              (PrimaryReturns (Some (mkInline (JStr "AAA=") (JStr "audio/wav"))))
              None "/srv/temp_1.aiff" true "QUlG")
           (mkBody (JNum 42) (JStr "Kore") (JStr "key"))
           ltac:(intros t H; discriminate H)).
Defined.

(** ** The local tier *)

(** X5.  Off macOS [generateSystemTTS] can only reject: it runs the
    [festival] pipeline, which writes no file, and then rejects with the
    error of [exec] or, when the command ran fine, with ['TTS generation
    failed']; it touches no temporary file. *)
Theorem generateSystemTTS_off_darwin_rejects (h : Host) (t v : string) :
  platform h ≠ "darwin" →
  generateSystemTTS h t v =
    (Throw (default (Error "TTS generation failed") (exec_error h)),
     [Exec (Festival t)]).
Proof.
  intros Hp. unfold generateSystemTTS.
  destruct (String.eqb_spec (platform h) "darwin") as [E | _]; [contradiction |].
  by destruct (exec_error h).
Qed.

Lemma generateSystemTTS_off_darwin_rejects_witness :
  generateSystemTTS
    (mkHost "linux" (PrimaryReturns None) None "/srv/temp_1.aiff" true "QUlG")
    "hello" "Kore"
  = (Throw (Error "TTS generation failed"), [Exec (Festival "hello")]).
Proof.
  exact (generateSystemTTS_off_darwin_rejects
           (mkHost "linux" (PrimaryReturns None) None "/srv/temp_1.aiff" true "QUlG")
           "hello" "Kore" ltac:(discriminate)).
Defined.

(** X6.  [generateSystemTTS] runs exactly one command.  It removes the
    temporary file exactly when it resolves, and then it has read it just
    before and resolves with its content; it resolves exactly on macOS when
    the command ran without error and left the file. *)
Theorem generateSystemTTS_cleans_up (h : Host) (t v : string) :
  local_attempts (generateSystemTTS h t v).2 = 1 ∧
  (Unlink (tempFile h) ∈ (generateSystemTTS h t v).2 ↔
   generateSystemTTS h t v =
     (Normal (tempFile_base64 h),
      [Exec (Say (systemVoice v) (tempFile h) t);
       ReadFile (tempFile h); Unlink (tempFile h)])) ∧
  ((∃ a, (generateSystemTTS h t v).1 = Normal a) ↔
   platform h = "darwin" ∧ exec_error h = None ∧ tempFile_exists h = true).
Proof.
  split; [apply TtsSpec.generateSystemTTS_one_exec |].
  unfold generateSystemTTS.
  destruct (String.eqb_spec (platform h) "darwin") as [E | N];
    destruct (exec_error h) as [e |]; destruct (tempFile_exists h);
    cbn [andb fst snd]; (split; split).
  all: try (intros H; repeat (apply elem_of_cons in H as [H | H]; [discriminate |]);
            by apply elem_of_nil in H).
  all: try (intros H; discriminate H).
  all: try (intros [a H]; discriminate H).
  all: try (intros (? & ? & ?); congruence).
  all: try reflexivity.
  all: try (intros _; by eexists).
  all: try (intros _; by repeat constructor).
  all: try done.
Qed.

(** ** The voice table *)

(** X7.  For every voice name that is not a property name of
    [Object.prototype], the voice handed to [say] is one of the five macOS
    voices of the table. *)
Theorem systemVoice_is_a_macos_voice (v : string) :
  v ∉ Object_prototype_keys →
  systemVoice v ∈
    [JStr "Samantha"; JStr "Alex"; JStr "Bruce"; JStr "Karen"; JStr "Daniel"].
Proof.
  intros Hproto. unfold systemVoice, resolve, get_property.
  destruct (voiceMap !! v) as [s |] eqn:E.
  - unfold voiceMap in E. apply elem_of_list_to_map_2 in E.
    repeat (apply elem_of_cons in E as [E | E];
            [injection E as _ ->; vm_compute; repeat constructor |]).
    by apply elem_of_nil in E.
  - rewrite bool_decide_eq_false_2 by exact Hproto. vm_compute. repeat constructor.
Qed.

Lemma systemVoice_is_a_macos_voice_witness :
  systemVoice "Nova" ∈
    [JStr "Samantha"; JStr "Alex"; JStr "Bruce"; JStr "Karen"; JStr "Daniel"].
Proof.
  exact (systemVoice_is_a_macos_voice "Nova"
           ltac:(vm_compute; intros H;
                 repeat (apply elem_of_cons in H as [H | H]; [discriminate |]);
                 by apply elem_of_nil in H)).
Defined.



(** ** The route without a fallback *)

(** X9.  The route of the variants without a fallback never runs a local
    command and calls the provider at most once.  It answers 400 exactly when
    the text is missing, and 200 exactly when text and key are present and
    the provider returns, even when what it returns holds no audio: the
    answer then carries the empty string. *)
Theorem generate_tts_A_statuses (h : Host) (b : Body) :
  local_attempts (generate_tts_A h b).2 = 0 ∧
  primary_attempts (generate_tts_A h b).2 ≤ 1 ∧
  (status (generate_tts_A h b).1 = 400 ↔ truthy (text b) = false) ∧
  (status (generate_tts_A h b).1 = 200 ↔
   truthy (text b) = true ∧ truthy (apiKey b) = true ∧
   ∃ d, primary h = PrimaryReturns d) ∧
  (truthy (text b) = true → truthy (apiKey b) = true →
   primary h = PrimaryReturns None →
   (generate_tts_A h b).1 = RespAudio (JStr "") None).
Proof.
  unfold generate_tts_A, createAiClient.
  destruct (truthy (text b)) eqn:Ht, (truthy (apiKey b)) eqn:Hk;
    cbn [negb]; try destruct (primary h) as [e | d] eqn:Hp; cbn [fst snd status].
  all: split; [by vm_compute |].
  all: split; [vm_compute; lia |].
  all: split; [split; intros H; discriminate H || done |].
  all: split; [split; [intros H; try discriminate H | intros (? & ? & ? & ?); try done] |].
  all: try (repeat split; try done; by eexists).
  all: try (intros _ _ H; discriminate H).
  all: try (intros H1 H2; discriminate H1 || discriminate H2).
  all: intros _ _ H; injection H as ->; reflexivity.
Qed.

End TtsFacts.

(** * The text endpoint *)

Module Generate.
Import Js.

(** [req.body] of [POST /api/generate] after destructuring. *)
Record Body := mkBody { prompt : JsVal; model : JsVal; apiKey : JsVal }.

(** What [ai.models.generateContent] does when called: it throws, or it
    returns a result for which [result.response?.text()] evaluates to
    [text] ([JUndefined] when there is no [response]). *)
Inductive Outcome :=
| GenerateThrows (e : JsError)
| GenerateReturns (text : JsVal).

Inductive Effect :=
| GenerateContent (model : JsVal) (contents : JsVal).

Inductive Response :=
| RespError (status : nat) (error : string) (details : option string)
| RespText (text : JsVal).

Definition status (r : Response) : nat :=
  match r with
  | RespError s _ _ => s
  | RespText _ => 200
  end.

(** [app.post('/api/generate', ...)] (part_000:75-95, server.js:31-51);
    [default_model] is the default of the destructuring, ['gemini-3.0-flash']
    in part_000 and ['gemini-2.0-flash-exp'] in the first variant of
    server.js. *)
Definition generate (default_model : string) (backend : Outcome) (b : Body)
  : Response * list Effect :=
  let model := with_default (model b) (JStr default_model) in
  if negb (truthy (prompt b))
  then (RespError 400 "Missing prompt in request body" None, [])
  else
    match Tts.createAiClient (apiKey b) with
    | Throw error =>
        (RespError 500 "Failed to generate content" (Some (String_of_error error)), [])
    | Normal _ =>
        let call := [GenerateContent model (prompt b)] in
        match backend with
        | GenerateThrows error =>
            (RespError 500 "Failed to generate content"
                       (Some (String_of_error error)), call)
        | GenerateReturns text => (RespText (nullish text (JStr "")), call)
        end
    end.

(** X10.  The text route calls the backend exactly when prompt and key are
    both present, once, with the prompt as it came and the model of the body
    (the default only when the body names none).  It answers 400 exactly when
    the prompt is missing, whether or not a key came with it, and 200 exactly
    when the call was made and returned; the text of a 200 answer is never
    [undefined] or [null]. *)
Theorem generate_statuses (default_model : string) (backend : Outcome) (b : Body) :
  let r := generate default_model backend b in
  r.2 = (if truthy (prompt b) && truthy (apiKey b)
         then [GenerateContent (with_default (model b) (JStr default_model)) (prompt b)]
         else []) ∧
  (status r.1 = 400 ↔ truthy (prompt b) = false) ∧
  (status r.1 = 200 ↔
   truthy (prompt b) = true ∧ truthy (apiKey b) = true ∧
   ∃ t, backend = GenerateReturns t) ∧
  (∀ t, r.1 = RespText t → t ≠ JUndefined ∧ t ≠ JNull).
Proof.
  cbn zeta. unfold generate, Tts.createAiClient.
  destruct (truthy (prompt b)) eqn:Hp, (truthy (apiKey b)) eqn:Hk;
    cbn [negb andb]; try destruct backend as [e | t0]; cbn [fst snd status].
  all: split; [reflexivity |].
  all: split; [split; intros H; discriminate H || done |].
  all: split; [split; [intros H; try discriminate H | intros (? & ? & ? & ?); try done] |].
  all: try (repeat split; try done; by eexists).
  all: try (intros t H; discriminate H).
  intros t H. injection H as <-. by destruct t0.
Qed.

End Generate.

(** * Further properties of the live relay *)

Module RelayFacts.
Import Js Relay.

(** The kinds of client message the handler tells apart. *)
Definition accepted_connect (sdk : Sdk) (f : Frame) : bool :=
  match f, sdk with
  | Parsed m, SdkReturns =>
      is_type m "connect" && truthy (from_option apiKey JUndefined (config m))
  | _, _ => false
  end.

Definition is_disconnect (f : Frame) : bool :=
  match f with
  | Parsed m => is_type m "disconnect"
  | Malformed _ => false
  end.

Definition is_audio_input (f : Frame) : bool :=
  match f with
  | Parsed m => is_type m "audio-input"
  | Malformed _ => false
  end.

(** How many audio frames have been handed to the handle of call [p], and
    how many wait on its pending promise. *)
Definition sends (p : nat) (c : Conn) : nat :=
  length (filter (fun x => x.1.1 = p) (forwarded c)).

Definition queued_sends (p : nat) (c : Conn) : nat :=
  match promises c !! p with
  | Some (Pending rs) => length (queued_audio p rs)
  | _ => 0
  end.

(** The call a queued callback makes on the session of call [p]. *)
Definition call_of (p : nat) (r : Reaction) : Effect :=
  match r with
  | SendAudio audioData mimeType => SendRealtimeInput p audioData mimeType
  | CloseSession => SessionClose p
  end.

(** The [audio-input] message that carries one frame. *)
Definition audio_message (frame : JsVal * JsVal) : Event :=
  ClientMessage SdkReturns
    (Parsed (mkMessage (JStr "audio-input") None frame.1 frame.2)).

(** What holds of the closure after any run from a fresh connection: the
    calls of [ai.live.connect] are numbered in order and each has its
    promise; the held handle is the one of the latest call and no close has
    been requested on it; no handle has more than one close requested. *)
Definition well_formed (c : Conn) : Prop :=
  connect_attempts c = seq 0 (length (promises c)) ∧
  (∀ p, liveSessionPromise c = Some p → S p = length (promises c)) ∧
  (∀ p, liveSessionPromise c = Some p → closes p c + queued_closes p c = 0) ∧
  (∀ p, closes p c + queued_closes p c ≤ 1) ∧
  (∀ p, length (promises c) ≤ p → closes p c = 0).

Lemma connect_attempts_react_all (p : nat) (rs : list Reaction) (c : Conn) :
  connect_attempts (react_all p rs c) = connect_attempts c.
Proof.
  revert c. induction rs as [| r rs IH]; intros c; [reflexivity |].
  cbn [react_all fold_left]. fold (react_all p rs (react p r c)).
  rewrite IH. destruct r; cbn [react];
    rewrite RelaySpec.connect_attempts_emit; apply app_nil_r.
Qed.

Lemma sent_react_all (p : nat) (rs : list Reaction) (c : Conn) :
  sent (react_all p rs c) = sent c.
Proof.
  revert c. induction rs as [| r rs IH]; intros c; [reflexivity |].
  cbn [react_all fold_left]. fold (react_all p rs (react p r c)).
  rewrite IH. destruct r; cbn [react]; rewrite RelaySpec.sent_emit; apply app_nil_r.
Qed.

Lemma queued_closes_ge (p : nat) (c : Conn) :
  length (promises c) ≤ p → queued_closes p c = 0.
Proof. intros H. unfold queued_closes. by rewrite lookup_ge_None_2. Qed.

Lemma queued_closes_app (p : nat) (a : option JsVal) (l : option nat)
    (ps : list PromiseState) (tr : list Effect) (c : Conn) :
  promises c = ps →
  queued_closes p (mkConn a l (ps ++ [Pending []]) tr) = queued_closes p c.
Proof.
  intros <-. unfold queued_closes. cbn [promises].
  destruct (decide (p < length (promises c))) as [Hlt | Hge].
  - by rewrite lookup_app_l.
  - rewrite (lookup_ge_None_2 (promises c) p) by lia.
    destruct (decide (p = length (promises c))) as [-> | Hne].
    + by rewrite list_lookup_middle.
    + rewrite lookup_ge_None_2; [done |]. rewrite length_app. cbn. lia.
Qed.

Lemma closes_app_other (q : nat) (a : option JsVal) (l : option nat)
    (ps : list PromiseState) (c : Conn) (es : list Effect) :
  (∀ e, e ∈ es → e ≠ SessionClose q) →
  closes q (mkConn a l ps (trace c ++ es)) = closes q c.
Proof.
  intros H. unfold closes. cbn [trace]. rewrite filter_app, length_app.
  assert (E : filter (λ e, e = SessionClose q) es = []).
  { induction es as [| e es IH]; [reflexivity |].
    rewrite filter_cons_False by (apply H; by left).
    apply IH. intros e' He'. apply H. by right. }
  rewrite E. cbn. lia.
Qed.

Lemma filter_queued_audio (p q : nat) (rs : list Reaction) :
  length (filter (λ x : nat * JsVal * JsVal, x.1.1 = p) (queued_audio q rs)) =
    if decide (q = p) then length (queued_audio q rs) else 0.
Proof.
  unfold queued_audio. induction rs as [| r rs IH].
  - cbn. by destruct (decide (q = p)).
  - destruct r as [a m |]; cbn [omap list_omap]; [| exact IH].
    fold (omap (λ r, match r with
                     | SendAudio a m => Some (q, a, m)
                     | CloseSession => None
                     end) rs) in *.
    destruct (decide (q = p)) as [-> | Hne].
    + rewrite filter_cons_True by reflexivity. cbn [length]. by rewrite IH.
    + rewrite filter_cons_False by (cbn; congruence). exact IH.
Qed.

Lemma sends_emit (p : nat) (e : Effect) (c : Conn) :
  sends p (emit e c) =
    sends p c +
    match e with
    | SendRealtimeInput q _ _ => if decide (q = p) then 1 else 0
    | _ => 0
    end.
Proof.
  unfold sends. rewrite RelaySpec.forwarded_emit, filter_app, length_app. f_equal.
  destruct e as [o | | q' md v u | q a m | q']; try reflexivity.
  destruct (decide (q = p)) as [-> | Hne].
  - by rewrite filter_cons_True.
  - by rewrite filter_cons_False by (cbn; congruence).
Qed.

Lemma sends_react_all (p q : nat) (rs : list Reaction) (c : Conn) :
  sends p (react_all q rs c) =
    sends p c + (if decide (q = p) then length (queued_audio q rs) else 0).
Proof.
  unfold sends. rewrite RelaySpec.forwarded_react_all, filter_app, length_app.
  by rewrite filter_queued_audio.
Qed.

Lemma queued_sends_set_promise (p : nat) (st : PromiseState) (c : Conn) :
  p < length (promises c) →
  queued_sends p (set_promise p st c) =
    match st with
    | Pending rs => length (queued_audio p rs)
    | _ => 0
    end.
Proof.
  intros Hlt. unfold queued_sends, set_promise. cbn [promises].
  by rewrite list_lookup_insert_eq.
Qed.

Lemma queued_sends_set_promise_ne (p q : nat) (st : PromiseState) (c : Conn) :
  p ≠ q → queued_sends p (set_promise q st c) = queued_sends p c.
Proof.
  intros Hne. unfold queued_sends, set_promise. cbn [promises].
  by rewrite list_lookup_insert_ne.
Qed.

Lemma is_type_true (m : Message) (t : string) :
  is_type m t = true → type m = JStr t.
Proof. unfold is_type. by intros H%bool_decide_eq_true. Qed.

Section Handlers.

Variable GEMINI_LIVE_MODEL : string.

Abbreviation on_message := (on_message GEMINI_LIVE_MODEL).
Abbreviation step := (step GEMINI_LIVE_MODEL).
Abbreviation run := (run GEMINI_LIVE_MODEL).

(** Every client message is an accepted [connect], a [disconnect], an
    [audio-input], or changes at most [ai] and sends at most one [error]
    envelope. *)
Lemma on_message_other (sdk : Sdk) (f : Frame) (c : Conn) :
  accepted_connect sdk f = false →
  is_disconnect f = false →
  is_audio_input f = false →
  ∃ a l,
    on_message sdk f c = mkConn a (liveSessionPromise c) (promises c) (trace c ++ l) ∧
    (l = [] ∨ ∃ s, l = [WsSend (ErrorEnvelope s)]).
Proof.
  intros Ha Hd Hi. destruct f as [e | m]; cbn [Relay.on_message].
  { eexists _, _. split; [reflexivity |]. right. by eexists. }
  cbn [is_disconnect is_audio_input] in Hd, Hi.
  destruct (is_type m "connect") eqn:Hc.
  - unfold on_connect.
    destruct (truthy (from_option apiKey JUndefined (config m))) eqn:Hk; cbn [negb].
    + destruct sdk; cbn [accepted_connect] in Ha.
      * rewrite Hc, Hk in Ha. discriminate.
      * eexists _, _. split; [reflexivity |]. right. by eexists.
      * eexists _, _. split; [reflexivity |]. right. by eexists.
    + eexists _, _. split; [reflexivity |]. right. by eexists.
  - rewrite Hi, Hd. exists (ai c), []. rewrite app_nil_r. split; [by destruct c | by left].
Qed.

Lemma on_message_accepted (sdk : Sdk) (f : Frame) (c : Conn) :
  accepted_connect sdk f = true →
  ∃ k v u,
    on_message sdk f c =
      mkConn (Some k) (Some (length (promises c))) (promises c ++ [Pending []])
             (trace c ++ [LiveConnect (length (promises c)) GEMINI_LIVE_MODEL v u]).
Proof.
  destruct f as [e | m]; [discriminate |]. destruct sdk; try discriminate.
  cbn [accepted_connect]. intros [Hc Hk]%andb_true_iff.
  cbn [Relay.on_message]. rewrite Hc. unfold on_connect. rewrite Hk. cbn [negb].
  by eexists _, _, _.
Qed.

Lemma on_message_is_disconnect (sdk : Sdk) (f : Frame) (c : Conn) :
  is_disconnect f = true →
  ∃ m, f = Parsed m ∧ type m = JStr "disconnect".
Proof.
  destruct f as [e | m]; [discriminate |]. cbn. intros H%is_type_true. by exists m.
Qed.

Lemma on_message_is_audio_input (sdk : Sdk) (f : Frame) (c : Conn) :
  is_audio_input f = true →
  ∃ m, f = Parsed m ∧ type m = JStr "audio-input".
Proof.
  destruct f as [e | m]; [discriminate |]. cbn. intros H%is_type_true. by exists m.
Qed.

(** Only an accepted [connect] calls [ai.live.connect] or makes a promise. *)
Lemma step_keeps_calls (c : Conn) (ev : Event) :
  (∀ sdk f, ev = ClientMessage sdk f → accepted_connect sdk f = false) →
  connect_attempts (step c ev) = connect_attempts c ∧
  length (promises (step c ev)) = length (promises c).
Proof.
  intros Hacc.
  destruct ev as [sdk f | | err | p | p sc | p | p err | p | p err]; cbn [Relay.step];
    unfold on_close, on_error, onopen, onmessage, onclose, onerror;
    rewrite ?RelaySpec.connect_attempts_emit, ?app_nil_r; try done.
  - specialize (Hacc sdk f eq_refl).
    destruct (is_disconnect f) eqn:Hd.
    { destruct (on_message_is_disconnect sdk f c Hd) as (m & -> & Ht).
      rewrite (RelaySpec.on_message_disconnect _ sdk m c Ht).
      destruct (liveSessionPromise c) as [p |];
        [destruct (promises c !! p) as [[rs | | e] |] |];
        rewrite ?RelaySpec.connect_attempts_emit, ?app_nil_r;
        cbn [promises emit set_liveSessionPromise set_promise];
        rewrite ?length_insert; done. }
    destruct (is_audio_input f) eqn:Hi.
    { destruct (on_message_is_audio_input sdk f c Hi) as (m & -> & Ht).
      rewrite (RelaySpec.on_message_audio_input _ sdk m c Ht).
      destruct (liveSessionPromise c) as [p |];
        [destruct (promises c !! p) as [[rs | | e] |] |];
        rewrite ?RelaySpec.connect_attempts_emit, ?app_nil_r;
        cbn [promises emit set_liveSessionPromise set_promise];
        rewrite ?length_insert; done. }
    destruct (on_message_other sdk f c Hacc Hd Hi) as (a & l & -> & Hl).
    cbn [promises]. split; [| reflexivity].
    unfold connect_attempts. cbn [trace]. rewrite omap_app.
    destruct Hl as [-> | [s ->]]; apply app_nil_r.
  - unfold resolve_promise.
    destruct (promises c !! p) as [[rs | | e] |]; try done.
    rewrite connect_attempts_react_all.
    destruct (RelaySpec.react_all_fields p rs (set_promise p Fulfilled c))
      as (_ & _ & ->).
    cbn [promises set_promise]. by rewrite length_insert.
  - unfold reject_promise.
    destruct (promises c !! p) as [[rs | | e] |]; try done.
    cbn [promises set_promise]. by rewrite length_insert.
Qed.

(** A client message other than [disconnect] requests no close. *)
Lemma on_message_keeps_closes (sdk : Sdk) (f : Frame) (c : Conn) (q : nat) :
  is_disconnect f = false →
  closes q (on_message sdk f c) = closes q c ∧
  queued_closes q (on_message sdk f c) = queued_closes q c.
Proof.
  intros Hd.
  destruct (accepted_connect sdk f) eqn:Hacc.
  { destruct (on_message_accepted sdk f c Hacc) as (k & v & u & ->). split.
    - apply closes_app_other. intros e ->%list_elem_of_singleton. discriminate.
    - by apply queued_closes_app. }
  destruct (is_audio_input f) eqn:Hi.
  { destruct (on_message_is_audio_input sdk f c Hi) as (m & -> & Ht).
    rewrite (RelaySpec.on_message_audio_input _ sdk m c Ht).
    destruct (liveSessionPromise c) as [p |]; [| done].
    destruct (promises c !! p) as [[rs | | e] |] eqn:Hp; try done.
    - split; [reflexivity |].
      assert (Hlt : p < length (promises c)) by (eapply lookup_lt_Some; exact Hp).
      destruct (decide (q = p)) as [-> | Hne].
      + rewrite (RelaySpec.queued_closes_set_promise p _ c Hlt).
        rewrite RelaySpec.count_closes_snoc_audio.
        unfold queued_closes. by rewrite Hp.
      + by apply RelaySpec.queued_closes_set_promise_ne.
    - split; [| reflexivity].
      rewrite RelaySpec.closes_emit, decide_False by discriminate. lia. }
  destruct (on_message_other sdk f c Hacc Hd Hi) as (a & l & -> & Hl). split.
  - apply closes_app_other. intros e He.
    destruct Hl as [-> | [s ->]]; [by apply elem_of_nil in He |].
    apply list_elem_of_singleton in He as ->. discriminate.
  - reflexivity.
Qed.

(** What a client message does to the held handle. *)
Lemma on_message_held (sdk : Sdk) (f : Frame) (c : Conn) :
  liveSessionPromise (on_message sdk f c) =
    if accepted_connect sdk f then Some (length (promises c))
    else if is_disconnect f then None
    else liveSessionPromise c.
Proof.
  destruct (accepted_connect sdk f) eqn:Hacc.
  { by destruct (on_message_accepted sdk f c Hacc) as (k & v & u & ->). }
  destruct (is_disconnect f) eqn:Hd.
  { destruct (on_message_is_disconnect sdk f c Hd) as (m & -> & Ht).
    by destruct (RelaySpec.disconnect_requests_one_close
                  GEMINI_LIVE_MODEL sdk m c 0 Ht) as [-> _]. }
  destruct (is_audio_input f) eqn:Hi.
  { destruct (on_message_is_audio_input sdk f c Hi) as (m & -> & Ht).
    rewrite (RelaySpec.on_message_audio_input _ sdk m c Ht).
    destruct (liveSessionPromise c) as [p |] eqn:Hl; [| exact Hl].
    destruct (promises c !! p) as [[rs | | e] |]; exact Hl. }
  by destruct (on_message_other sdk f c Hacc Hd Hi) as (a & l & -> & _).
Qed.

Lemma accepted_is_not_disconnect (sdk : Sdk) (f : Frame) :
  accepted_connect sdk f = true → is_disconnect f = false.
Proof.
  destruct f as [e | m]; [done |]. destruct sdk; try done.
  cbn. intros [Hc _]%andb_true_iff. apply is_type_true in Hc.
  unfold is_type. rewrite Hc. reflexivity.
Qed.

Lemma held_handle_Some (c : Conn) (p : nat) :
  held_handle c = Some p → liveSessionPromise c = Some p.
Proof.
  unfold held_handle. destruct (liveSessionPromise c) as [p' |]; [| done].
  destruct (promises c !! p') as [[rs | | e] |]; congruence.
Qed.

Lemma well_formed_connection : well_formed connection.
Proof.
  repeat split; try done. intros p.
  unfold queued_closes, closes. cbn [promises trace connection].
  rewrite lookup_nil. cbn. lia.
Qed.

Lemma well_formed_step (c : Conn) (ev : Event) :
  well_formed c → well_formed (step c ev).
Proof.
  intros (Hatt & Hlast & Hheld & Hone & Hfresh).
  destruct (from_backend ev) eqn:Hb.
  - (* the backend, or the transport closing *)
    destruct (step_keeps_calls c ev) as [Ea El].
    { intros sdk f ->. discriminate. }
    assert (Hstep := λ q, RelaySpec.step_from_backend GEMINI_LIVE_MODEL c ev q Hb).
    repeat split.
    + by rewrite Ea, El.
    + intros p Hp. rewrite El. apply Hlast. by destruct (Hstep 0) as [<- _].
    + intros p Hp. destruct (Hstep p) as (Hl & _ & Hsum).
      rewrite Hl in Hp. specialize (Hheld p Hp). lia.
    + intros p. destruct (Hstep p) as (_ & _ & Hsum). specialize (Hone p). lia.
    + intros p Hp. rewrite El in Hp. destruct (Hstep p) as (_ & _ & Hsum).
      rewrite (Hfresh p Hp), (queued_closes_ge p c Hp) in Hsum. lia.
  - destruct ev as [sdk f | | | | | | | |]; try discriminate. cbn [Relay.step].
    pose proof (on_message_held sdk f c) as Hl.
    destruct (accepted_connect sdk f) eqn:Hacc.
    + (* an accepted connect *)
      destruct (on_message_keeps_closes sdk f c (length (promises c))
                  (accepted_is_not_disconnect sdk f Hacc)) as [Hc Hq].
      assert (Hk := λ q, on_message_keeps_closes sdk f c q
                           (accepted_is_not_disconnect sdk f Hacc)).
      destruct (on_message_accepted sdk f c Hacc) as (k & v & u & E).
      assert (Elen : length (promises (on_message sdk f c)) = S (length (promises c))).
      { rewrite E. cbn [promises]. rewrite length_app. cbn. lia. }
      repeat split.
      * rewrite Elen, seq_S. cbn [plus]. rewrite <- Hatt, E.
        unfold connect_attempts. cbn [trace]. by rewrite omap_app.
      * intros p Hp. rewrite Hl in Hp. injection Hp as <-. by rewrite Elen.
      * intros p Hp. rewrite Hl in Hp. injection Hp as <-. rewrite Hc, Hq.
        rewrite (Hfresh _ (le_n _)), (queued_closes_ge _ c (le_n _)). lia.
      * intros p. destruct (Hk p) as [-> ->]. apply Hone.
      * intros p Hp. rewrite Elen in Hp. destruct (Hk p) as [-> _].
        apply Hfresh. lia.
    + destruct (step_keeps_calls c (ClientMessage sdk f)) as [Ea El].
      { intros sdk' f' [= <- <-]. exact Hacc. }
      cbn [Relay.step] in Ea, El.
      destruct (is_disconnect f) eqn:Hd.
      * (* a disconnect *)
        destruct (on_message_is_disconnect sdk f c Hd) as (m & -> & Ht).
        assert (Hreq := λ q, RelaySpec.disconnect_requests_one_close
                               GEMINI_LIVE_MODEL sdk m c q Ht).
        repeat split.
        -- by rewrite Ea, El.
        -- intros p Hp. rewrite Hl in Hp. discriminate.
        -- intros p Hp. rewrite Hl in Hp. discriminate.
        -- intros p. destruct (Hreq p) as [_ ->].
           destruct (decide (held_handle c = Some p)) as [Hh | _].
           ++ rewrite (Hheld p (held_handle_Some c p Hh)). lia.
           ++ specialize (Hone p). lia.
        -- intros p Hp. rewrite El in Hp. destruct (Hreq p) as [_ Hsum].
           rewrite decide_False in Hsum.
           ++ rewrite (Hfresh p Hp), (queued_closes_ge p c Hp) in Hsum. lia.
           ++ intros Hh%held_handle_Some. specialize (Hlast p Hh). lia.
      * (* any other message *)
        assert (Hk := λ q, on_message_keeps_closes sdk f c q Hd).
        repeat split.
        -- by rewrite Ea, El.
        -- intros p Hp. rewrite Hl in Hp. rewrite El. by apply Hlast.
        -- intros p Hp. rewrite Hl in Hp. destruct (Hk p) as [-> ->]. by apply Hheld.
        -- intros p. destruct (Hk p) as [-> ->]. apply Hone.
        -- intros p Hp. rewrite El in Hp. destruct (Hk p) as [-> _]. by apply Hfresh.
Qed.

Lemma well_formed_run (evs : list Event) (c : Conn) :
  well_formed c → well_formed (run evs c).
Proof.
  revert c. induction evs as [| ev evs IH]; intros c Hc; [exact Hc |].
  cbn [Relay.run fold_left]. apply (IH (step c ev)). by apply well_formed_step.
Qed.

(** X11.  Over any run from a fresh connection, [session.close()] is called
    at most once on any backend handle, counting the calls still queued on a
    pending connection; on the handle the closure holds no call has been made
    or queued. *)
Theorem no_handle_closed_twice (evs : list Event) (p : nat) :
  let c := run evs connection in
  closes p c + queued_closes p c ≤ 1 ∧
  (liveSessionPromise c = Some p → closes p c + queued_closes p c = 0).
Proof.
  cbn zeta.
  destruct (well_formed_run evs connection well_formed_connection)
    as (_ & _ & Hheld & Hone & _).
  split; [apply Hone | apply Hheld].
Qed.

(** X12.  Over any run from a fresh connection, the calls of
    [ai.live.connect] are numbered in the order they were made, each has its
    own promise, and the handle the closure holds is the one of the most
    recent call. *)
Theorem held_handle_is_latest_call (evs : list Event) :
  let c := run evs connection in
  connect_attempts c = seq 0 (length (promises c)) ∧
  ∀ p, liveSessionPromise c = Some p → last (connect_attempts c) = Some p.
Proof.
  cbn zeta.
  destruct (well_formed_run evs connection well_formed_connection)
    as (Hatt & Hlast & _).
  split; [exact Hatt |].
  intros p Hp. rewrite Hatt, <- (Hlast p Hp), seq_S. cbn [plus].
  by rewrite last_snoc.
Qed.

(** X15.  Which handle the closure holds changes only by an accepted
    [connect], which holds the new call, and by a [disconnect], which holds
    none; every other message and every event of the backend or the
    transport leaves it as it is. *)
Theorem held_handle_changes (c : Conn) (ev : Event) :
  liveSessionPromise (step c ev) =
    match ev with
    | ClientMessage sdk f =>
        if accepted_connect sdk f then Some (length (promises c))
        else if is_disconnect f then None
        else liveSessionPromise c
    | _ => liveSessionPromise c
    end.
Proof.
  destruct ev as [sdk f | | err | p | p sc | p | p err | p | p err].
  - apply on_message_held.
  - reflexivity.
  - reflexivity.
  - reflexivity.
  - reflexivity.
  - reflexivity.
  - reflexivity.
  - exact (proj1 (RelaySpec.step_from_backend GEMINI_LIVE_MODEL c
                    (ConnectResolved p) 0 eq_refl)).
  - exact (proj1 (RelaySpec.step_from_backend GEMINI_LIVE_MODEL c
                    (ConnectRejected p err) 0 eq_refl)).
Qed.

(** ** Frames reach only the held handle *)

(** One event on a closure that does not hold the existing handle [p]: it
    is not held afterwards, and it gains no frame beyond those queued. *)
Lemma queued_sends_emit (p : nat) (e : Effect) (c : Conn) :
  queued_sends p (emit e c) = queued_sends p c.
Proof. reflexivity. Qed.

Lemma queued_sends_set_liveSessionPromise (p : nat) (v : option nat) (c : Conn) :
  queued_sends p (set_liveSessionPromise v c) = queued_sends p c.
Proof. reflexivity. Qed.

Lemma sends_set_liveSessionPromise (p : nat) (v : option nat) (c : Conn) :
  sends p (set_liveSessionPromise v c) = sends p c.
Proof. reflexivity. Qed.

Lemma sends_set_promise (p q : nat) (st : PromiseState) (c : Conn) :
  sends p (set_promise q st c) = sends p c.
Proof. reflexivity. Qed.

Ltac same_frames :=
  rewrite ?sends_emit, ?queued_sends_emit, ?sends_set_liveSessionPromise,
    ?queued_sends_set_liveSessionPromise, ?sends_set_promise;
  rewrite ?sends_emit, ?queued_sends_emit, ?sends_set_liveSessionPromise,
    ?queued_sends_set_liveSessionPromise, ?sends_set_promise;
  try lia.

(** One event on a closure that does not hold the existing handle [p]: it
    is not held afterwards, and it gains no frame beyond those queued. *)
Lemma step_released (c : Conn) (ev : Event) (p : nat) :
  p < length (promises c) →
  liveSessionPromise c ≠ Some p →
  p < length (promises (step c ev)) ∧
  liveSessionPromise (step c ev) ≠ Some p ∧
  sends p (step c ev) + queued_sends p (step c ev) ≤ sends p c + queued_sends p c.
Proof.
  intros Hlt Hnot.
  destruct ev as [sdk f | | err | q | q sc | q | q err | q | q err]; cbn [Relay.step];
    unfold on_close, on_error, onopen, onmessage, onclose, onerror;
    try (split; [exact Hlt |]; split; [exact Hnot |]; by same_frames).
  - (* a client message *)
    destruct (accepted_connect sdk f) eqn:Hacc.
    { destruct (on_message_accepted sdk f c Hacc) as (k & v & u & ->).
      cbn [promises liveSessionPromise]. rewrite length_app. cbn [length].
      split; [lia |]. split; [intros [= E]; lia |].
      unfold sends, queued_sends, forwarded. cbn [trace promises].
      rewrite omap_app, app_nil_r, lookup_app_l by exact Hlt. reflexivity. }
    destruct (is_disconnect f) eqn:Hd.
    { destruct (on_message_is_disconnect sdk f c Hd) as (m & -> & Ht).
      rewrite (RelaySpec.on_message_disconnect _ sdk m c Ht).
      destruct (liveSessionPromise c) as [q |] eqn:Hl.
      2: { split; [exact Hlt |]. split; [cbn; by rewrite Hl |]. by same_frames. }
      assert (Hqp : p ≠ q) by congruence.
      destruct (promises c !! q) as [[rs | | e] |] eqn:Hq;
        (split; [cbn [emit promises set_liveSessionPromise set_promise];
                 by rewrite ?length_insert |]);
        (split; [done |]); same_frames.
      rewrite queued_sends_set_promise_ne by exact Hqp. lia. }
    destruct (is_audio_input f) eqn:Hi.
    { destruct (on_message_is_audio_input sdk f c Hi) as (m & -> & Ht).
      rewrite (RelaySpec.on_message_audio_input _ sdk m c Ht).
      assert (Hsame : p < length (promises c) ∧ liveSessionPromise c ≠ Some p ∧
                      sends p c + queued_sends p c ≤ sends p c + queued_sends p c)
        by (split; [exact Hlt | split; [exact Hnot | lia]]).
      destruct (liveSessionPromise c) as [q |] eqn:Hl; [| by rewrite Hl].
      assert (Hqp : p ≠ q) by congruence.
      destruct (promises c !! q) as [[rs | | e] |] eqn:Hq; try (by rewrite Hl).
      - cbn [promises liveSessionPromise set_promise]. rewrite length_insert.
        split; [exact Hlt |]. split; [by rewrite Hl |].
        same_frames. rewrite queued_sends_set_promise_ne by exact Hqp. lia.
      - split; [exact Hlt |]. split; [cbn; by rewrite Hl |].
        same_frames. rewrite decide_False by congruence. lia. }
    destruct (on_message_other sdk f c Hacc Hd Hi) as (a & l & -> & Hl).
    cbn [promises liveSessionPromise]. split; [exact Hlt |]. split; [exact Hnot |].
    unfold sends, queued_sends, forwarded. cbn [trace promises]. rewrite omap_app.
    destruct Hl as [-> | [s' ->]]; cbn; rewrite app_nil_r; reflexivity.
  - (* the promise of call q fulfils *)
    unfold resolve_promise.
    destruct (promises c !! q) as [[rs | | e] |] eqn:Hq; try (repeat split; (done || lia)).
    assert (Hqlt : q < length (promises c)) by (eapply lookup_lt_Some; exact Hq).
    destruct (RelaySpec.react_all_fields q rs (set_promise q Fulfilled c))
      as (_ & El & Ep).
    rewrite El, Ep. cbn [promises liveSessionPromise set_promise].
    rewrite length_insert. split; [exact Hlt |]. split; [exact Hnot |].
    rewrite sends_react_all, sends_set_promise.
    assert (Eq : queued_sends p (react_all q rs (set_promise q Fulfilled c))
                 = queued_sends p (set_promise q Fulfilled c)).
    { unfold queued_sends. by rewrite Ep. }
    rewrite Eq.
    destruct (decide (q = p)) as [-> | Hne].
    + rewrite (queued_sends_set_promise p _ c Hlt).
      unfold queued_sends. rewrite Hq. lia.
    + rewrite queued_sends_set_promise_ne by congruence. lia.
  - (* the promise of call q is rejected *)
    unfold reject_promise.
    destruct (promises c !! q) as [[rs | | e] |] eqn:Hq; try (repeat split; (done || lia)).
    cbn [promises liveSessionPromise set_promise]. rewrite length_insert.
    split; [exact Hlt |]. split; [exact Hnot |]. rewrite sends_set_promise.
    destruct (decide (q = p)) as [-> | Hne].
    + rewrite (queued_sends_set_promise p _ c Hlt). lia.
    + rewrite queued_sends_set_promise_ne by congruence. lia.
Qed.

(** X16.  A backend handle that exists and is not held is never held again,
    and the only audio frames it still receives are those that were queued on
    its pending connection: whatever events follow, no later [audio-input]
    reaches it. *)
Theorem released_handle_gets_no_new_frame (c : Conn) (p : nat) (evs : list Event) :
  p < length (promises c) →
  liveSessionPromise c ≠ Some p →
  liveSessionPromise (run evs c) ≠ Some p ∧
  sends p (run evs c) + queued_sends p (run evs c) ≤ sends p c + queued_sends p c.
Proof.
  revert c. induction evs as [| ev evs IH]; intros c Hlt Hnot.
  - split; [exact Hnot | reflexivity].
  - cbn [Relay.run fold_left]. fold (run evs (step c ev)).
    destruct (step_released c ev p Hlt Hnot) as (Hlt' & Hnot' & Hle).
    destruct (IH (step c ev) Hlt' Hnot') as [Hn Hs].
    split; [exact Hn | lia].
Qed.

(** ** Frames keep their order *)

Lemma audio_message_resolved (c : Conn) (p : nat) (frame : JsVal * JsVal) :
  held_handle c = Some p →
  held_handle (step c (audio_message frame)) = Some p ∧
  forwarded (resolve_promise p (step c (audio_message frame))) =
    forwarded (resolve_promise p c) ++ [(p, frame.1, frame.2)].
Proof.
  intros Hh. pose proof (held_handle_Some c p Hh) as Hl.
  unfold audio_message. cbn [Relay.step].
  rewrite (RelaySpec.on_message_audio_input _ SdkReturns
             (mkMessage (JStr "audio-input") None frame.1 frame.2) c eq_refl).
  unfold held_handle in Hh |- *. rewrite Hl in Hh |- *. cbn [audioData mimeType].
  destruct (promises c !! p) as [[rs | | e] |] eqn:Hp; try discriminate.
  - assert (Hlt : p < length (promises c)) by (eapply lookup_lt_Some; exact Hp).
    cbn [liveSessionPromise promises set_promise]. rewrite Hl.
    rewrite list_lookup_insert_eq by exact Hlt. split; [reflexivity |].
    unfold resolve_promise. cbn [promises set_promise].
    rewrite list_lookup_insert_eq by exact Hlt. rewrite Hp.
    rewrite !RelaySpec.forwarded_react_all, RelaySpec.queued_audio_snoc, app_assoc.
    reflexivity.
  - cbn [liveSessionPromise promises emit]. rewrite Hl, Hp. split; [reflexivity |].
    unfold resolve_promise. cbn [promises emit]. rewrite Hp.
    by rewrite RelaySpec.forwarded_emit.
Qed.

(** X13.  Audio frames sent one after another to a closure that holds a
    handle reach the backend in the order they were sent: once the
    connection has resolved, the backend handle has received them after all
    earlier frames, none lost and none doubled, whether they arrived before
    or after the connection resolved. *)
Theorem frames_forwarded_in_order (c : Conn) (p : nat) (frames : list (JsVal * JsVal)) :
  held_handle c = Some p →
  forwarded (resolve_promise p (run (map audio_message frames) c)) =
    forwarded (resolve_promise p c) ++ map (λ f, (p, f.1, f.2)) frames.
Proof.
  revert c. induction frames as [| f frames IH]; intros c Hh.
  - cbn. by rewrite app_nil_r.
  - cbn [map Relay.run fold_left]. fold (run (map audio_message frames) (step c (audio_message f))).
    destruct (audio_message_resolved c p f Hh) as [Hh' Hf].
    rewrite (IH _ Hh'), Hf, <- app_assoc. reflexivity.
Qed.

(** ** A disconnect while the connection is pending *)

Lemma trace_react_all (p : nat) (rs : list Reaction) (c : Conn) :
  trace (react_all p rs c) = trace c ++ map (call_of p) rs.
Proof.
  revert c. induction rs as [| r rs IH]; intros c.
  - cbn. by rewrite app_nil_r.
  - cbn [react_all fold_left map]. fold (react_all p rs (react p r c)).
    rewrite IH. destruct r; cbn [react emit trace call_of]; by rewrite <- app_assoc.
Qed.

(** X20.  A [disconnect] that arrives while the held connection is still
    pending calls [ws.close()] at once and defers the rest: when the
    connection resolves, the callbacks queued before the [disconnect] run in
    their order first, so the audio frames sent meanwhile still reach the
    backend, and [session.close()] is the last call made. *)
Theorem disconnect_while_pending (sdk : Sdk) (m : Message) (c : Conn) (p : nat)
    (rs : list Reaction) :
  type m = JStr "disconnect" →
  liveSessionPromise c = Some p →
  promises c !! p = Some (Pending rs) →
  trace (run [ClientMessage sdk (Parsed m); ConnectResolved p] c) =
    trace c ++ [WsClose] ++ map (call_of p) rs ++ [SessionClose p].
Proof.
  intros Ht Hl Hp.
  assert (Hlt : p < length (promises c)) by (eapply lookup_lt_Some; exact Hp).
  cbn [Relay.run fold_left Relay.step].
  rewrite (RelaySpec.on_message_disconnect _ sdk m c Ht), Hl, Hp.
  unfold resolve_promise. cbn [promises emit set_liveSessionPromise set_promise].
  rewrite list_lookup_insert_eq by exact Hlt.
  rewrite trace_react_all, map_app. cbn [trace set_promise emit set_liveSessionPromise map call_of].
  by rewrite <- !app_assoc.
Qed.

(** ** Envelopes *)

(** X14.  Every event adds at most one envelope to those sent, after the
    earlier ones.  A client message is answered with nothing or with one
    [error] envelope; [connected], [disconnected] and [gemini-message]
    envelopes come from the backend callbacks alone, one for each callback,
    and the settling of a connection and the events of the transport send
    nothing. *)
Theorem one_envelope_per_event (c : Conn) (ev : Event) :
  ∃ l,
    sent (step c ev) = sent c ++ l ∧
    match ev with
    | ClientMessage _ _ => l = [] ∨ ∃ s, l = [ErrorEnvelope s]
    | BackendOpen _ => l = [Connected]
    | BackendMessage _ serverContent => l = [GeminiMessage serverContent]
    | BackendClose _ => l = [Disconnected]
    | BackendError _ err => l = [ErrorEnvelope (String_of_error err)]
    | _ => l = []
    end.
Proof.
  destruct ev as [sdk f | | err | q | q sc | q | q err | q | q err]; cbn [Relay.step];
    unfold on_close, on_error, onopen, onmessage, onclose, onerror;
    try (eexists; split; [apply RelaySpec.sent_emit | reflexivity]);
    try (exists []; split; [by rewrite app_nil_r | reflexivity]).
  - destruct (accepted_connect sdk f) eqn:Hacc.
    { destruct (on_message_accepted sdk f c Hacc) as (k & v & u & ->).
      exists []. split; [| by left].
      unfold sent. cbn [trace]. by rewrite omap_app. }
    destruct (is_disconnect f) eqn:Hd.
    { destruct (on_message_is_disconnect sdk f c Hd) as (m & -> & Ht).
      rewrite (RelaySpec.on_message_disconnect _ sdk m c Ht).
      exists []. split; [| by left].
      destruct (liveSessionPromise c) as [p |];
        [destruct (promises c !! p) as [[rs | | e] |] |];
        rewrite ?RelaySpec.sent_emit, ?app_nil_r; reflexivity. }
    destruct (is_audio_input f) eqn:Hi.
    { destruct (on_message_is_audio_input sdk f c Hi) as (m & -> & Ht).
      rewrite (RelaySpec.on_message_audio_input _ sdk m c Ht).
      exists []. split; [| by left].
      destruct (liveSessionPromise c) as [p |];
        [destruct (promises c !! p) as [[rs | | e] |] |];
        rewrite ?RelaySpec.sent_emit, ?app_nil_r; reflexivity. }
    destruct (on_message_other sdk f c Hacc Hd Hi) as (a & l & -> & Hl).
    unfold sent. cbn [trace]. rewrite omap_app.
    destruct Hl as [-> | [s ->]].
    + exists []. split; [reflexivity | by left].
    + exists [ErrorEnvelope s]. split; [reflexivity | right; by exists s].
  - exists []. rewrite app_nil_r. split; [| reflexivity].
    unfold resolve_promise. destruct (promises c !! q) as [[rs | | e] |]; try reflexivity.
    by rewrite sent_react_all.
  - exists []. rewrite app_nil_r. split; [| reflexivity].
    unfold reject_promise. by destruct (promises c !! q) as [[rs | | e] |].
Qed.

End Handlers.

(** ** Concrete runs *)

Lemma released_handle_gets_no_new_frame_witness :
  let connect := ClientMessage SdkReturns
        (Parsed (mkMessage (JStr "connect")
           (Some (mkConfig (JStr "Kore") (JStr "Ana") (JStr "key")))
           JUndefined JUndefined)) in
  let disconnect := ClientMessage SdkReturns
        (Parsed (mkMessage (JStr "disconnect") None JUndefined JUndefined)) in
  let c := run default_live_model [connect; ConnectResolved 0; disconnect] connection in
  let evs := [audio_message (JStr "AAAA", JStr "audio/pcm"); connect;
              audio_message (JStr "BBBB", JStr "audio/pcm"); ConnectResolved 1] in
  liveSessionPromise (run default_live_model evs c) ≠ Some 0 ∧
  sends 0 (run default_live_model evs c) + queued_sends 0 (run default_live_model evs c)
    ≤ sends 0 c + queued_sends 0 c.
Proof.
  exact (released_handle_gets_no_new_frame default_live_model
           (run default_live_model
              [ClientMessage SdkReturns
                 (Parsed (mkMessage (JStr "connect")
                    (Some (mkConfig (JStr "Kore") (JStr "Ana") (JStr "key")))
                    JUndefined JUndefined));
               ConnectResolved 0;
               ClientMessage SdkReturns
                 (Parsed (mkMessage (JStr "disconnect") None JUndefined JUndefined))]
              connection)
           0
           [audio_message (JStr "AAAA", JStr "audio/pcm");
            ClientMessage SdkReturns
              (Parsed (mkMessage (JStr "connect")
                 (Some (mkConfig (JStr "Kore") (JStr "Ana") (JStr "key")))
                 JUndefined JUndefined));
            audio_message (JStr "BBBB", JStr "audio/pcm"); ConnectResolved 1]
           ltac:(vm_compute; lia) ltac:(discriminate)).
Defined.

Lemma disconnect_while_pending_witness :
  let connect := ClientMessage SdkReturns
        (Parsed (mkMessage (JStr "connect")
           (Some (mkConfig (JStr "Kore") (JStr "Ana") (JStr "key")))
           JUndefined JUndefined)) in
  let c := run default_live_model
             [connect; audio_message (JStr "AAAA", JStr "audio/pcm")] connection in
  let m := mkMessage (JStr "disconnect") None JUndefined JUndefined in
  trace (run default_live_model
           [ClientMessage SdkReturns (Parsed m); ConnectResolved 0] c) =
    trace c ++ [WsClose] ++
    [SendRealtimeInput 0 (JStr "AAAA") (JStr "audio/pcm")] ++ [SessionClose 0].
Proof.
  exact (disconnect_while_pending default_live_model SdkReturns
           (mkMessage (JStr "disconnect") None JUndefined JUndefined)
           (run default_live_model
              [ClientMessage SdkReturns
                 (Parsed (mkMessage (JStr "connect")
                    (Some (mkConfig (JStr "Kore") (JStr "Ana") (JStr "key")))
                    JUndefined JUndefined));
               audio_message (JStr "AAAA", JStr "audio/pcm")] connection)
           0 [SendAudio (JStr "AAAA") (JStr "audio/pcm")]
           eq_refl eq_refl eq_refl).
Defined.

Lemma frames_forwarded_in_order_witness :
  let connect := ClientMessage SdkReturns
        (Parsed (mkMessage (JStr "connect")
           (Some (mkConfig (JStr "Kore") (JStr "Ana") (JStr "key")))
           JUndefined JUndefined)) in
  let c := run default_live_model [connect] connection in
  let frames := [(JStr "AAAA", JStr "audio/pcm"); (JStr "BBBB", JStr "audio/pcm")] in
  forwarded (resolve_promise 0 (run default_live_model (map audio_message frames) c)) =
    [(0, JStr "AAAA", JStr "audio/pcm"); (0, JStr "BBBB", JStr "audio/pcm")].
Proof.
  exact (frames_forwarded_in_order default_live_model
           (run default_live_model
              [ClientMessage SdkReturns
                 (Parsed (mkMessage (JStr "connect")
                    (Some (mkConfig (JStr "Kore") (JStr "Ana") (JStr "key")))
                    JUndefined JUndefined))]
              connection)
           0
           [(JStr "AAAA", JStr "audio/pcm"); (JStr "BBBB", JStr "audio/pcm")]
           eq_refl).
Defined.

End RelayFacts.

(** * The relay without a backend *)

Module Stub.
Import Js Relay.

(** [ws.on('message', ...)] of the variant that only validates the key
    (part_001:229-250): [connect] calls [createAiClient] and confirms, the
    audio branch is empty, and whatever is thrown is reported by the outer
    [catch].  The closure variables are never assigned. *)
Definition on_message (f : Frame) (c : Conn) : Conn :=
  match f with
  | Malformed error => emit (WsSend (ErrorEnvelope (String_of_error error))) c
  | Parsed message =>
      if is_type message "connect" then
        let apiKey := from_option apiKey JUndefined (config message) in
        match Tts.createAiClient apiKey with
        | Throw error => emit (WsSend (ErrorEnvelope (String_of_error error))) c
        | Normal _ => emit (WsSend Connected) c
        end
      else if is_type message "audio-input" then c
      else if is_type message "disconnect" then emit WsClose c
      else c
  end.

Definition run (fs : list Frame) (c : Conn) : Conn :=
  fold_left (fun c f => on_message f c) fs c.

(** The frames that get an answer: the malformed ones and the [connect]
    messages. *)
Definition answered (f : Frame) : bool :=
  match f with
  | Malformed _ => true
  | Parsed m => is_type m "connect"
  end.

Lemma on_message_trace (f : Frame) (c : Conn) :
  ai (on_message f c) = ai c ∧
  liveSessionPromise (on_message f c) = liveSessionPromise c ∧
  promises (on_message f c) = promises c ∧
  connect_attempts (on_message f c) = connect_attempts c ∧
  forwarded (on_message f c) = forwarded c ∧
  length (sent (on_message f c)) =
    length (sent c) + (if answered f then 1 else 0).
Proof.
  destruct f as [e | m]; cbn [on_message answered].
  { rewrite RelaySpec.connect_attempts_emit, RelaySpec.forwarded_emit,
      RelaySpec.sent_emit, !app_nil_r, length_app. done. }
  destruct (is_type m "connect").
  { destruct (Tts.createAiClient _);
      rewrite RelaySpec.connect_attempts_emit, RelaySpec.forwarded_emit,
        RelaySpec.sent_emit, !app_nil_r, length_app; done. }
  destruct (is_type m "audio-input"); [repeat split; lia |].
  destruct (is_type m "disconnect"); [| repeat split; lia].
  rewrite RelaySpec.connect_attempts_emit, RelaySpec.forwarded_emit,
    RelaySpec.sent_emit, !app_nil_r. repeat split; lia.
Qed.

(** X17.  Over any sequence of frames the relay without a backend never
    calls [ai.live.connect], never forwards an audio frame and never holds a
    handle; it sends one envelope for each malformed frame and each
    [connect] message, and none for anything else. *)
Theorem stub_never_reaches_backend (fs : list Frame) :
  connect_attempts (run fs connection) = [] ∧
  forwarded (run fs connection) = [] ∧
  liveSessionPromise (run fs connection) = None ∧
  length (sent (run fs connection)) = length (filter (λ f, answered f = true) fs).
Proof.
  assert (H : ∀ c,
    connect_attempts (run fs c) = connect_attempts c ∧
    forwarded (run fs c) = forwarded c ∧
    liveSessionPromise (run fs c) = liveSessionPromise c ∧
    length (sent (run fs c)) =
      length (sent c) + length (filter (λ f, answered f = true) fs)).
  { induction fs as [| f fs IH]; intros c.
    - cbn. repeat split; lia.
    - cbn [run fold_left]. fold (run fs (on_message f c)).
      destruct (IH (on_message f c)) as (-> & -> & -> & ->).
      destruct (on_message_trace f c) as (_ & -> & _ & -> & -> & ->).
      repeat split. rewrite filter_cons.
      destruct (answered f); cbn [decide]; [rewrite decide_True by done
                                           | rewrite decide_False by done];
        cbn [length]; lia. }
  destruct (H connection) as (-> & -> & -> & ->). repeat split.
Qed.

(** X18.  The relay without a backend answers a [connect] message at once:
    with [connected] when the key is present, and with the [error] envelope
    ['Error: Missing Gemini API key'] when it is absent or empty; that is its
    only effect. *)
Theorem stub_connect_answer (m : Message) (c : Conn) :
  type m = JStr "connect" →
  on_message (Parsed m) c =
    emit (WsSend (if truthy (from_option apiKey JUndefined (config m))
                  then Connected
                  else ErrorEnvelope "Error: Missing Gemini API key")) c.
Proof.
  intros Ht. cbn [on_message]. rewrite (RelaySpec.is_type_connect m Ht).
  unfold Tts.createAiClient.
  by destruct (truthy (from_option apiKey JUndefined (config m))).
Qed.

Lemma stub_connect_answer_witness :
  on_message (Parsed (mkMessage (JStr "connect") None JUndefined JUndefined))
             connection
  = emit (WsSend (ErrorEnvelope "Error: Missing Gemini API key")) connection.
Proof.
  exact (stub_connect_answer
           (mkMessage (JStr "connect") None JUndefined JUndefined)
           connection eq_refl).
Defined.

End Stub.
